(** * The publish pipeline of the SilverBullet "publish" plug (src/publish.ts)

    A shallow embedding of [publish.ts]: the page selector, the document
    transformer ([cleanMarkdown], [collectAttachments]), the per-page site
    generator ([generatePage]) and the driver ([publishAll]) with its
    clean-up and manifest stages.

    Conventions.
    - A JavaScript string is a [string]: the bytes of its text in UTF-8.
    - A value that the code reads without trusting its type (a page name, a
      share marker) is a [JsVal].
    - A thrown exception / rejected promise is [None] in [option], or the
      [None] outcome of the state monad [M] for code that talks to storage.
    - Objects that the code mutates in place (the parsed tree, the page
      records) are threaded through explicitly: the function returns the
      object as it is after the call, and every later use takes that one.
    - [console.log] and friends are not modelled. *)

From Stdlib Require Import ZArith Lia Bool Ascii String List.
From stdpp Require Import base option list strings gmap pretty.

Open Scope string_scope.

(** ** JavaScript strings *)

Module Js.

(** [s.includes(pat)], equivalently [s.indexOf(pat) !== -1]. *)
Fixpoint includes (pat s : string) : bool :=
  String.prefix pat s ||
  match s with
  | EmptyString => false
  | String _ s' => includes pat s'
  end.

(** [s.split(sep)[0]] for a non-empty separator: the part of [s] before the
    first occurrence of [sep] (the whole of [s] when there is none). *)
Fixpoint splitHead (sep s : string) : string :=
  if String.prefix sep s then EmptyString
  else match s with
       | EmptyString => EmptyString
       | String c s' => String c (splitHead sep s')
       end.

(** [s.startsWith(p)]. *)
Definition startsWith (s p : string) : bool := String.prefix p s.

(** [s.slice(n)] for [0 <= n], with [n] counted in bytes: that is [n]
    UTF-16 units when the first [n] bytes of [s] are ASCII characters, as
    they are in a name that starts with "_public/". *)
Fixpoint slice (n : nat) (s : string) : string :=
  match n, s with
  | O, _ => s
  | S _, EmptyString => EmptyString
  | S n', String _ s' => slice n' s'
  end.

(** White space as [String.prototype.trim] sees it: the characters of the
    ECMAScript productions WhiteSpace and LineTerminator, each by its UTF-8
    bytes.

    One byte: TAB, LF, VT, FF, CR (U+0009 to U+000D) and SPACE (U+0020). *)
Definition isSpace (c : ascii) : bool :=
  let n := nat_of_ascii c in
  ((9 <=? n) && (n <=? 13))%nat || (n =? 32)%nat.

(** Two bytes: NO-BREAK SPACE, U+00A0 (bytes 194 160). *)
Definition isSpace2 (c1 c2 : ascii) : bool :=
  ((nat_of_ascii c1 =? 194) && (nat_of_ascii c2 =? 160))%nat.

(** Three bytes: U+1680 (225 154 128); U+2000 to U+200A (226 128 128 to
    226 128 138); the line and paragraph separators U+2028 and U+2029
    (226 128 168 and 226 128 169); U+202F (226 128 175); U+205F
    (226 129 159); U+3000 (227 128 128); and the byte order mark U+FEFF
    (239 187 191). *)
Definition isSpace3 (c1 c2 c3 : ascii) : bool :=
  let n1 := nat_of_ascii c1 in
  let n2 := nat_of_ascii c2 in
  let n3 := nat_of_ascii c3 in
  ((n1 =? 225) && (n2 =? 154) && (n3 =? 128))%nat ||
  ((n1 =? 226) && (n2 =? 128) &&
   (((128 <=? n3) && (n3 <=? 138)) || (n3 =? 168) || (n3 =? 169) ||
    (n3 =? 175)))%nat ||
  ((n1 =? 226) && (n2 =? 129) && (n3 =? 159))%nat ||
  ((n1 =? 227) && (n2 =? 128) && (n3 =? 128))%nat ||
  ((n1 =? 239) && (n2 =? 187) && (n3 =? 191))%nat.

(** Dropping the characters at the front of [s] that [p1], [p2] or [p3]
    recognises by their one, two or three bytes. *)
Fixpoint dropWhile (p1 : ascii → bool) (p2 : ascii → ascii → bool)
    (p3 : ascii → ascii → ascii → bool) (s : string) : string :=
  match s with
  | EmptyString => EmptyString
  | String c1 s1 =>
      if p1 c1 then dropWhile p1 p2 p3 s1
      else
        match s1 with
        | EmptyString => s
        | String c2 s2 =>
            if p2 c1 c2 then dropWhile p1 p2 p3 s2
            else
              match s2 with
              | EmptyString => s
              | String c3 s3 =>
                  if p3 c1 c2 c3 then dropWhile p1 p2 p3 s3 else s
              end
        end
  end.

Definition trimStart (s : string) : string :=
  dropWhile isSpace isSpace2 isSpace3 s.

(** At the end of [s] the bytes of a character are met last byte first. *)
Definition trimEnd (s : string) : string :=
  String.rev
    (dropWhile isSpace (λ c2 c1, isSpace2 c1 c2)
       (λ c3 c2 c1, isSpace3 c1 c2 c3) (String.rev s)).

Definition trim (s : string) : string := trimEnd (trimStart s).

End Js.

(** ** Untyped values

    The primitive values a field of a page record can hold. Equality on
    them is the [SameValueZero] comparison of [Array.prototype.includes],
    [Map] and [Set], and [===] (numbers are integers here). *)

Inductive JsVal : Type :=
  | JUndefined
  | JNull
  | JBool (b : bool)
  | JNum (z : Z)
  | JStr (s : string).

#[global] Instance JsVal_eq_dec : EqDecision JsVal.
Proof. solve_decision. Defined.

(** [if (v)] *)
Definition truthy (v : JsVal) : bool :=
  match v with
  | JUndefined | JNull => false
  | JBool b => b
  | JNum z => negb (z =? 0)%Z
  | JStr s => negb (String.eqb s "")
  end.

(** [typeof v === "string"] *)
Definition isString (v : JsVal) : bool :=
  match v with JStr _ => true | _ => false end.

(** [`${v}`] *)
Definition toJsString (v : JsVal) : string :=
  match v with
  | JUndefined => "undefined"
  | JNull => "null"
  | JBool true => "true"
  | JBool false => "false"
  | JNum z => pretty z
  | JStr s => s
  end.

(** [arr.includes(x)] *)
Definition arrIncludes (arr : list JsVal) (x : JsVal) : bool :=
  bool_decide (x ∈ arr).

(** ** PublishConfig (lines 16-30) *)

Module Config.

Record t : Type := {
  title : option string;
  indexPage : option string;
  removeHashtags : option bool;
  publishAll : option bool;
  tags : option (list string);
  prefixes : option (list string);
  template : option string;
  generateIndexJson : option bool;
}.

End Config.

Abbreviation PublishConfig := Config.t.

Definition defaultPublishConfig : PublishConfig := {|
  Config.title := None;
  Config.indexPage := None;
  Config.removeHashtags := Some true;
  Config.publishAll := None;
  Config.tags := None;
  Config.prefixes := None;
  Config.template := None;
  Config.generateIndexJson := Some true;
|}.

(** [{ ...a, ...b }]: a field that [b] has wins. *)
Definition spread (a b : PublishConfig) : PublishConfig := {|
  Config.title := from_option Some (Config.title a) (Config.title b);
  Config.indexPage :=
    from_option Some (Config.indexPage a) (Config.indexPage b);
  Config.removeHashtags :=
    from_option Some (Config.removeHashtags a) (Config.removeHashtags b);
  Config.publishAll :=
    from_option Some (Config.publishAll a) (Config.publishAll b);
  Config.tags := from_option Some (Config.tags a) (Config.tags b);
  Config.prefixes := from_option Some (Config.prefixes a) (Config.prefixes b);
  Config.template := from_option Some (Config.template a) (Config.template b);
  Config.generateIndexJson :=
    from_option Some (Config.generateIndexJson a) (Config.generateIndexJson b);
|}.

(** Truthiness of an optional boolean field. *)
Definition flag (o : option bool) : bool := default false o.

(** Truthiness of an optional string field: absent and [""] are falsy. *)
Definition nonEmpty (o : option string) : option string :=
  match o with
  | Some s => if String.eqb s "" then None else Some s
  | None => None
  end.

(** ** Parse trees ($sb/lib/tree.ts)

    [ParseTree] and the three helpers that [publish.ts] imports from the
    editor's tree library, which is not part of this repository. *)

Set Warnings "-register-all".

(** Modelled from the spec: the type [ParseTree] of [$sb/lib/tree.ts]. A
    node has an optional [type] (a node without one is a text node), the
    positions [from] and [to] that the parser records, an optional [text]
    and an optional array of [children]; [publish.ts] reads [type], [text]
    and [children] and builds the text node [{ text }]. *)
Inductive ParseTree : Type :=
  Node (type : option string) (from to : option Z) (text : option string)
       (children : option (list ParseTree)).

Definition type (n : ParseTree) : option string :=
  match n with Node ty _ _ _ _ => ty end.
Definition text (n : ParseTree) : option string :=
  match n with Node _ _ _ tx _ => tx end.
Definition children (n : ParseTree) : option (list ParseTree) :=
  match n with Node _ _ _ _ cs => cs end.

(** [n.type === ty] *)
Definition hasType (ty : string) (n : ParseTree) : bool :=
  bool_decide (type n = Some ty).

(** The object literal [{ text: s }]. *)
Definition textNode (s : string) : ParseTree :=
  Node None None None (Some s) None.

(** What a substitution callback returns: [undefined] (go on into the
    node), [null] (delete the node) or a replacement node. *)
Inductive Subst : Type :=
  | Undefined
  | Null
  | Replace (t : ParseTree).

Section TreeLib.

Variable substituteFn : ParseTree → option Subst.

(** Modelled from the spec: [replaceNodesMatching] of [$sb/lib/tree.ts],
    which [publish.ts] imports. It visits the children of [tree] in order;
    a child for which the callback answers is deleted or replaced in its
    parent's array and not entered, any other child is rewritten
    recursively. The root itself is never offered to the callback. The
    mutation is in place (line 223 drops the return value and line 246
    reads [mdTree] again): the result here is the object the caller still
    holds. [None] when the callback throws. Nodes of a parsed tree are
    distinct objects, so [indexOf] finds each child at its own position. *)
Fixpoint replaceNodesMatching (tree : ParseTree) : option ParseTree :=
  match tree with
  | Node ty f t tx None => Some tree
  | Node ty f t tx (Some cs) =>
      let fix loop (cs : list ParseTree) : option (list ParseTree) :=
        match cs with
        | [] => Some []
        | child :: rest =>
            match substituteFn child with
            | None => None
            | Some (Replace subst) => (subst ::.) <$> loop rest
            | Some Null => loop rest
            | Some Undefined =>
                match replaceNodesMatching child with
                | None => None
                | Some child' => (child' ::.) <$> loop rest
                end
            end
        end in
      (λ cs', Node ty f t tx (Some cs')) <$> loop cs
  end.

(** The loop over the children of [replaceNodesMatching], as a function of
    its own. *)
Fixpoint replaceChildren (cs : list ParseTree) : option (list ParseTree) :=
  match cs with
  | [] => Some []
  | child :: rest =>
      match substituteFn child with
      | None => None
      | Some (Replace subst) => (subst ::.) <$> replaceChildren rest
      | Some Null => replaceChildren rest
      | Some Undefined =>
          match replaceNodesMatching child with
          | None => None
          | Some child' => (child' ::.) <$> replaceChildren rest
          end
      end
  end.

End TreeLib.

(** Modelled from the spec: [collectNodesMatching] / [collectNodesOfType] of
    [$sb/lib/tree.ts]: the matching nodes in document order; a matching node
    is returned whole and not searched further. *)
Fixpoint collectNodesMatching (matchFn : ParseTree → bool) (tree : ParseTree)
  : list ParseTree :=
  if matchFn tree then [tree]
  else match tree with
       | Node _ _ _ _ (Some cs) =>
           (fix loop (cs : list ParseTree) : list ParseTree :=
              match cs with
              | [] => []
              | c :: rest => (collectNodesMatching matchFn c ++ loop rest)%list
              end) cs
       | Node _ _ _ _ None => []
       end.

Definition collectNodesOfType (tree : ParseTree) (nodeType : string)
  : list ParseTree :=
  collectNodesMatching (hasType nodeType) tree.

(** Modelled from the spec: [renderToText] of [$sb/lib/tree.ts]: the text of
    a text node, else the concatenation of the children's texts. A node with
    neither text nor children makes it throw. *)
Fixpoint renderToText (tree : ParseTree) : option string :=
  match tree with
  | Node _ _ _ (Some tx) _ => Some tx
  | Node _ _ _ None None => None
  | Node _ _ _ None (Some cs) =>
      (fix loop (cs : list ParseTree) : option string :=
         match cs with
         | [] => Some ""
         | c :: rest =>
             match renderToText c with
             | None => None
             | Some s => (λ r, s ++ r) <$> loop rest
             end
         end) cs
  end.

(** ** The document transformer (lines 207-247) *)

(** [n.children![i]]: throws unless the array is there and long enough to
    be read further. *)
Definition childAt (i : nat) (n : ParseTree) : option ParseTree :=
  cs ← children n; cs !! i.

(** [n.children![1].children![0].text!] followed by a string method call:
    any missing piece is a [TypeError]. *)
Definition wikiLinkPage (n : ParseTree) : option string :=
  c ← childAt 1 n; g ← childAt 0 c; text g.

(** [page.includes("@") ? page.split("@")[0] : page] (lines 226-228) *)
Definition stripAt (page : string) : string :=
  if Js.includes "@" page then Js.splitHead "@" page else page.

(** The callback handed to [replaceNodesMatching] (lines 223-245). [rest]
    is what lines 237-244 answer; a link reaches them when its page is
    published. *)
Definition cleanFn (publishConfig : PublishConfig) (validPages : list JsVal)
    (n : ParseTree) : option Subst :=
  let rest :=
    if hasType "CommentBlock" n || hasType "Comment" n then Null
    else if hasType "Hashtag" n && flag (Config.removeHashtags publishConfig)
         then Null
         else Undefined in
  if hasType "WikiLink" n then
    page ← wikiLinkPage n;
    let page := stripAt page in
    if negb (arrIncludes validPages (JStr page))
    then Some (Replace (textNode ("_" ++ page ++ "_")))
    else Some rest
  else Some rest.

(** [cleanMarkdown]: the tree as the rewrite leaves it, and the trimmed
    text. The caller's [mdTree] is the first component from here on. *)
Definition cleanMarkdown (mdTree : ParseTree) (publishConfig : PublishConfig)
    (validPages : list JsVal) : option (ParseTree * string) :=
  mdTree' ← replaceNodesMatching (cleanFn publishConfig validPages) mdTree;
  s ← renderToText mdTree';
  Some (mdTree', Js.trim s).

(** [node.children![0].text!] of a URL node, then [url.indexOf]. *)
Definition urlText (node : ParseTree) : option string :=
  c ← childAt 0 node; text c.

Definition isLocal (url : string) : bool := negb (Js.includes "://" url).

(** [collectAttachments] (lines 207-216). *)
Definition collectAttachments (tree : ParseTree) : option (list string) :=
  urls ← mapM urlText (collectNodesOfType tree "URL");
  Some (filter (λ url, isLocal url = true) urls).

(** ** The page catalog and the page selector (lines 88-136) *)

(** The [$share] field: one value or an array of values. An absent field
    is the scalar [JUndefined]. *)
Inductive ShareVal : Type :=
  | ShareScalar (v : JsVal)
  | ShareArray (l : list JsVal).

#[global] Instance ShareVal_eq_dec : EqDecision ShareVal.
Proof. solve_decision. Defined.

Module Page.

(** One entry of [space.listPages()], with the fields the selector reads. *)
Record t : Type := {
  name : JsVal;
  tags : option (list string);
  share : ShareVal;
}.

#[global] Instance eq_dec : EqDecision t.
Proof. solve_decision. Defined.

(** [page.$share = v] *)
Definition setShare (page : t) (v : ShareVal) : t :=
  {| name := name page; tags := tags page; share := v |}.

End Page.

(** [if (page.$share)]: an array is truthy, also when empty. *)
Definition shareTruthy (v : ShareVal) : bool :=
  match v with
  | ShareScalar x => truthy x
  | ShareArray _ => true
  end.

(** A [Map] with primitive keys: entries in insertion order; setting a key
    that is present replaces its value where it stands. *)
Fixpoint mapSet {V : Type} (k : JsVal) (v : V) (m : list (JsVal * V))
  : list (JsVal * V) :=
  match m with
  | [] => [(k, v)]
  | (k', v') :: m' =>
      if decide (k = k') then (k, v) :: m' else (k', v') :: mapSet k v m'
  end.

(** [new Map(entries)] *)
Definition newMap {V : Type} (entries : list (JsVal * V))
  : list (JsVal * V) :=
  foldl (λ m e, mapSet e.1 e.2 m) [] entries.

(** [[...m.values()]] *)
Definition mapValues {V : Type} (m : list (JsVal * V)) : list V := m.*2.

(** A [Set] of primitives, in insertion order. *)
Definition setAdd (s : list JsVal) (x : JsVal) : list JsVal :=
  if bool_decide (x ∈ s) then s else (s ++ [x])%list.

(** [new Set(arr)] *)
Definition newSet (arr : list JsVal) : list JsVal := foldl setAdd [] arr.

(** The page records are objects shared between the listing, [allPageMap]
    and the loop variable [page]: the store [recs] holds them by position in
    the listing and the map holds positions. *)
Definition allPageMap (recs : list Page.t) : list (JsVal * nat) :=
  newMap (imap (λ i pm, (Page.name pm, i)) recs).

(** One turn of the loop of lines 107-135 on the record at position [a]. *)
Definition selectStep (publishConfig : PublishConfig)
    (st : list JsVal * list Page.t) (a : nat) : list JsVal * list Page.t :=
  let '(publishedPages, recs) := st in
  match recs !! a with
  | None => st
  | Some page =>
      let publishedPages :=
        match Config.tags publishConfig, Page.tags page with
        | Some ctags, Some ptags =>
            foldl (λ s tag, if bool_decide (tag ∈ ctags)
                            then setAdd s (Page.name page) else s)
                  publishedPages ptags
        | _, _ => publishedPages
        end in
      match Page.name page with
      | JStr nm =>
          let publishedPages :=
            match Config.prefixes publishConfig with
            | Some ps =>
                foldl (λ s prefix, if Js.startsWith nm prefix
                                   then setAdd s (JStr nm) else s)
                      publishedPages ps
            | None => publishedPages
            end in
          if shareTruthy (Page.share page) then
            let '(arr, recs) :=
              match Page.share page with
              | ShareArray l => (l, recs)
              | ShareScalar v =>
                  ([v], <[a := Page.setShare page (ShareArray [v])]> recs)
              end in
            (if arrIncludes arr (JStr "pub")
             then setAdd publishedPages (JStr nm) else publishedPages, recs)
          else (publishedPages, recs)
      | _ => (publishedPages, recs)
      end
  end.

(** Lines 102-136: the published set and the page records as the selector
    leaves them. *)
Definition selectPages (publishConfig : PublishConfig)
    (recs : list Page.t) : list JsVal * list Page.t :=
  let allPages := mapValues (allPageMap recs) in
  if flag (Config.publishAll publishConfig) then
    (newSet (omap (λ a, Page.name <$> recs !! a) allPages), recs)
  else
    foldl (selectStep publishConfig) ([], recs) allPages.

(** ** JSON.stringify

    The values that the manifest is made of. A number is an integer and
    prints as its decimal digits, which is what [JSON.stringify] prints for
    an integer below 10^21 in absolute value (sizes and time stamps are
    such). *)

Inductive Json : Type :=
  | JsonNum (z : Z)
  | JsonStr (s : string)
  | JsonArr (l : list Json)
  | JsonObj (l : list (string * Json)).

Module JSON.

Definition dquote : string := String "034" EmptyString.
Definition backslash : string := String "092" EmptyString.
Definition newline : string := String "010" EmptyString.

Definition hexDigit (n : nat) : ascii :=
  if (n <? 10)%nat then ascii_of_nat (48 + n) else ascii_of_nat (87 + n).

(** The escape of one character inside a JSON string. *)
Definition quoteChar (c : ascii) : string :=
  let n := nat_of_ascii c in
  if (n =? 8)%nat then backslash ++ "b"
  else if (n =? 9)%nat then backslash ++ "t"
  else if (n =? 10)%nat then backslash ++ "n"
  else if (n =? 12)%nat then backslash ++ "f"
  else if (n =? 13)%nat then backslash ++ "r"
  else if (n =? 34)%nat then backslash ++ dquote
  else if (n =? 92)%nat then backslash ++ backslash
  else if (n <? 32)%nat then
    backslash ++ "u00" ++
    String (hexDigit (n / 16)) (String (hexDigit (n mod 16)) EmptyString)
  else String c EmptyString.

Fixpoint quoteBody (s : string) : string :=
  match s with
  | EmptyString => EmptyString
  | String c s' => quoteChar c ++ quoteBody s'
  end.

Definition quote (s : string) : string := dquote ++ quoteBody s ++ dquote.

(** [JSON.stringify(value, null, space)] with [gap] the indentation unit
    and [indent] the current indentation. *)
Fixpoint serialize (gap indent : string) (j : Json) : string :=
  let stepback := indent in
  let indent := indent ++ gap in
  let wrap (opening closing : string) (partial : list string) : string :=
    match partial with
    | [] => opening ++ closing
    | _ =>
        if String.eqb gap "" then
          opening ++ String.concat "," partial ++ closing
        else
          opening ++ newline ++ indent ++
          String.concat ("," ++ newline ++ indent) partial ++
          newline ++ stepback ++ closing
    end in
  match j with
  | JsonNum z => pretty z
  | JsonStr s => quote s
  | JsonArr l => wrap "[" "]" (map (serialize gap indent) l)
  | JsonObj l =>
      wrap "{" "}"
        (map (λ kv, quote kv.1 ++ ":" ++
                    (if String.eqb gap "" then "" else " ") ++
                    serialize gap indent kv.2) l)
  end.

(** [JSON.stringify(value, null, n)] for a number [n] of spaces, of which
    at most ten are used. *)
Definition stringify (j : Json) (n : nat) : string :=
  serialize (String.concat "" (replicate (n `min` 10) " ")) "" j.

End JSON.

(** ** Storage (the [space] syscalls) *)

Module File.

(** [FileMeta]: an entry of [space.listAttachments()] and of the manifest. *)
Record meta : Type := {
  name : string;
  size : Z;
  contentType : string;
  lastModified : Z;
  perm : string;
}.

#[global] Instance meta_eq_dec : EqDecision meta.
Proof. solve_decision. Defined.

End File.

Abbreviation FileMeta := File.meta.

(** A stored attachment: its bytes and what the storage layer records. *)
Record Stored : Type := {
  data : string;
  storedType : string;
  storedTime : Z;
}.

Record Space : Type := {
  catalog : list Page.t;             (* what [listPages] answers *)
  pageText : gmap string string;     (* what [readPage] answers *)
  attachments : gmap string Stored;
}.

(** Code that talks to storage: a state monad over [Space] whose [None]
    outcome is a rejected promise. What was written before the rejection
    stays written. *)
Definition M (A : Type) : Type := Space → option A * Space.

Definition ret {A : Type} (x : A) : M A := λ s, (Some x, s).

Definition bind {A B : Type} (m : M A) (k : A → M B) : M B :=
  λ s, match m s with
       | (Some x, s') => k x s'
       | (None, s') => (None, s')
       end.

Definition throw {A : Type} : M A := λ s, (None, s).

(** [try { m } catch (e) { log }] *)
Definition tryCatch (m : M unit) : M unit :=
  λ s, (Some tt, (m s).2).

(** [try { x = m } catch (e) { }], telling which of the two happened. *)
Definition attempt {A : Type} (m : M A) : M (option A) :=
  λ s, (Some (m s).1, (m s).2).

Definition liftOption {A : Type} (o : option A) : M A :=
  match o with
  | Some x => ret x
  | None => throw
  end.

Notation "'let*' x ':=' m 'in' k" := (bind m (λ x, k))
  (at level 10, x name, m at level 100, k at level 200, only parsing).
Notation "m ';;' k" := (bind m (λ _, k))
  (at level 100, k at level 200, right associativity, only parsing).

(** [for (const x of l) { await body(x) }] *)
Fixpoint forEach {A : Type} (l : list A) (body : A → M unit) : M unit :=
  match l with
  | [] => ret tt
  | x :: rest => body x ;; forEach rest body
  end.

Section Pipeline.

(** The collaborators that [publish.ts] imports. *)
Variable parseMarkdown : string → ParseTree.        (* markdown.parseMarkdown *)
Variable renderMarkdownToHtml : ParseTree → string. (* with the options of lines 67-70 *)
Variable mimeType : string → string.   (* content type the storage assigns *)
Variable clock : Z.                    (* time stamp the storage assigns *)
Variable parseYaml : string → option PublishConfig. (* inside readYamlPage *)
Variable codeBlock : string → option string.   (* inside readCodeBlockPage *)
Variable templateAsset : option string.        (* assets/template.hbs *)

(** What a compiled template is applied to (lines 64-71). *)
Record TemplateData : Type := {
  pageName : JsVal;
  config : PublishConfig;
  body : string;
}.

Variable compile : string → TemplateData → option string. (* Handlebars.compile *)

Definition listPages : M (list Page.t) := λ s, (Some (catalog s), s).

(** [space.readPage(name)]. Pages are kept under string names, and
    [generatePage] declares [pageName: string]; for a value that is not a
    string the call is taken to fail, as it does for a name without a
    page. *)
Definition readPage (name : JsVal) : M string :=
  λ s, match name with
       | JStr nm => (pageText s !! nm, s)
       | _ => (None, s)
       end.

Definition metaOf (e : string * Stored) : FileMeta := {|
  File.name := e.1;
  File.size := Z.of_nat (String.length (data e.2));
  File.contentType := storedType e.2;
  File.lastModified := storedTime e.2;
  File.perm := "rw";
|}.

Definition listAttachments : M (list FileMeta) :=
  λ s, (Some (metaOf <$> map_to_list (attachments s)), s).

Definition readAttachment (name : string) : M string :=
  λ s, (data <$> attachments s !! name, s).

Definition writeAttachment (name : string) (bytes : string) : M unit :=
  λ s, (Some tt,
        {| catalog := catalog s;
           pageText := pageText s;
           attachments :=
             <[name := {| data := bytes; storedType := mimeType name;
                          storedTime := clock |}]> (attachments s) |}).

Definition deleteAttachment (name : string) : M unit :=
  λ s, (Some tt,
        {| catalog := catalog s;
           pageText := pageText s;
           attachments := delete name (attachments s) |}).

Definition readYamlPage (name : string) : M PublishConfig :=
  let* txt := readPage (JStr name) in liftOption (parseYaml txt).

Definition readCodeBlockPage (name : string) : M string :=
  let* txt := readPage (JStr name) in liftOption (codeBlock txt).

(** Lines 50-58: the best-effort copy of one attachment. *)
Definition copyAttachment (destDir attachment : string) : M unit :=
  tryCatch (let* attachmentData := readAttachment attachment in
            writeAttachment (destDir ++ "/" ++ attachment) attachmentData).

(** [generatePage] (lines 32-73). [mdTree] is one object: after
    [cleanMarkdown] has rewritten it in place, [collectAttachments] and
    [renderMarkdownToHtml] read the rewritten tree. *)
Definition generatePage (pageName : JsVal) (htmlPath mdPath : string)
    (publishedPages : list JsVal) (publishConfig : PublishConfig)
    (destDir : string) (template : TemplateData → option string) : M unit :=
  let* txt := readPage pageName in
  let mdTree := parseMarkdown txt in
  let* cleaned := liftOption (cleanMarkdown mdTree publishConfig publishedPages) in
  let mdTree := cleaned.1 in
  let publishMd := cleaned.2 in
  let* attachments := liftOption (collectAttachments mdTree) in
  forEach attachments (copyAttachment destDir) ;;
  writeAttachment mdPath publishMd ;;
  let* html :=
    liftOption (template {| pageName := pageName;
                            config := publishConfig;
                            body := renderMarkdownToHtml mdTree |}) in
  writeAttachment htmlPath html.

(** Lines 93-98. *)
Definition cleanDestDir (destDir : string) : M unit :=
  let* listing := listAttachments in
  forEach listing (λ attachment,
    if Js.startsWith (File.name attachment) destDir
    then deleteAttachment (File.name attachment)
    else ret tt).

(** Lines 183-189: the manifest entry made of a listed attachment. *)
Definition publishedFile (destDir : string) (f : FileMeta) : FileMeta := {|
  File.name := Js.slice (String.length destDir + 1) (File.name f);
  File.size := File.size f;
  File.contentType := File.contentType f;
  File.lastModified := File.lastModified f;
  File.perm := "ro";
|}.

(** Lines 173-191: the manifest entries drawn from a listing. *)
Fixpoint publishedFiles (destDir : string) (listing : list FileMeta)
  : list FileMeta :=
  match listing with
  | [] => []
  | f :: rest =>
      if Js.startsWith (File.name f) destDir then
        if String.eqb (File.contentType f) "text/html"
        then publishedFiles destDir rest
        else publishedFile destDir f :: publishedFiles destDir rest
      else publishedFiles destDir rest
  end.

(** A manifest entry as the JSON value of the object literal of lines
    183-189 (keys in the order written). *)
Definition fileMetaJson (f : FileMeta) : Json :=
  JsonObj [("name", JsonStr (File.name f));
           ("size", JsonNum (File.size f));
           ("contentType", JsonStr (File.contentType f));
           ("lastModified", JsonNum (File.lastModified f));
           ("perm", JsonStr (File.perm f))].

(** Lines 171-198. *)
Definition writeIndexJson (destDir : string) : M unit :=
  let* listing := listAttachments in
  writeAttachment (destDir ++ "/index.json")
    (JSON.stringify (JsonArr (fileMetaJson <$> publishedFiles destDir listing)) 2).

(** Lines 76-85: the defaults, overridden by what the PUBLISH page holds. *)
Definition loadPublishConfig : M PublishConfig :=
  let* loaded := attempt (readYamlPage "PUBLISH") in
  ret match loaded with
      | Some loadedPublishConfig =>
          spread defaultPublishConfig loadedPublishConfig
      | None => defaultPublishConfig
      end.

(** Lines 86-198: the run once the configuration is resolved. *)
Definition publishWith (publishConfig : PublishConfig) : M unit :=
  let destDir := "_public" in
  let* allPages := listPages in
  cleanDestDir destDir ;;
  let publishedPages := (selectPages publishConfig allPages).1 in
  let* pageTemplate := liftOption templateAsset in
  let* pageTemplate :=
    match nonEmpty (Config.template publishConfig) with
    | Some t => readCodeBlockPage t
    | None => ret pageTemplate
    end in
  let template := compile pageTemplate in
  let publishedPagesArray := publishedPages in
  forEach publishedPagesArray (λ page,
    generatePage page
      (destDir ++ "/" ++ toJsString page ++ "/index.html")
      (destDir ++ "/" ++ toJsString page ++ ".md")
      publishedPagesArray publishConfig destDir template) ;;
  match nonEmpty (Config.indexPage publishConfig) with
  | Some indexPage =>
      generatePage (JStr indexPage)
        (destDir ++ "/index.html") (destDir ++ "/index.md")
        publishedPagesArray publishConfig destDir template
  | None => ret tt
  end ;;
  if flag (Config.generateIndexJson publishConfig)
  then writeIndexJson destDir
  else ret tt.

(** [publishAll] (lines 75-199). *)
Definition publishAll : M unit :=
  let* publishConfig := loadPublishConfig in publishWith publishConfig.

End Pipeline.

(** ** The run after the selection *)

Section AfterSelection.

Variable parseMarkdown : string → ParseTree.
Variable renderMarkdownToHtml : ParseTree → string.
Variable mimeType : string → string.
Variable clock : Z.
Variable codeBlock : string → option string.
Variable templateAsset : option string.
Variable compile : string → TemplateData → option string.

(** Lines 137-198 of [publishAll], the stages that follow the selection,
    as a function of the published names. *)
Definition publishSelected (publishConfig : PublishConfig)
    (publishedPages : list JsVal) : M unit :=
  let destDir := "_public" in
  let* pageTemplate := liftOption templateAsset in
  let* pageTemplate :=
    match nonEmpty (Config.template publishConfig) with
    | Some t => readCodeBlockPage codeBlock t
    | None => ret pageTemplate
    end in
  let template := compile pageTemplate in
  let publishedPagesArray := publishedPages in
  forEach publishedPagesArray (λ page,
    generatePage parseMarkdown renderMarkdownToHtml mimeType clock page
      (destDir ++ "/" ++ toJsString page ++ "/index.html")
      (destDir ++ "/" ++ toJsString page ++ ".md")
      publishedPagesArray publishConfig destDir template) ;;
  match nonEmpty (Config.indexPage publishConfig) with
  | Some indexPage =>
      generatePage parseMarkdown renderMarkdownToHtml mimeType clock
        (JStr indexPage)
        (destDir ++ "/index.html") (destDir ++ "/index.md")
        publishedPagesArray publishConfig destDir template
  | None => ret tt
  end ;;
  if flag (Config.generateIndexJson publishConfig)
  then writeIndexJson mimeType clock destDir
  else ret tt.

End AfterSelection.

(** ** Vocabulary of the statements *)

(** All nodes of a tree, root first, in document order. *)
Fixpoint allNodes (t : ParseTree) : list ParseTree :=
  t :: match t with
       | Node _ _ _ _ (Some cs) => flat_map allNodes cs
       | Node _ _ _ _ None => []
       end.

(** The nodes strictly below the root. *)
Definition descendants (t : ParseTree) : list ParseTree :=
  match children t with
  | Some cs => flat_map allNodes cs
  | None => []
  end.

(** A node the rewrite of [cleanMarkdown] never answers for, whatever the
    configuration and the published set. *)
Definition passive (n : ParseTree) : bool :=
  negb (hasType "WikiLink" n || hasType "CommentBlock" n ||
        hasType "Comment" n || hasType "Hashtag" n).

(** A node of a type that [cleanMarkdown] deletes under the configuration. *)
Definition suppressed (publishConfig : PublishConfig) (n : ParseTree) : bool :=
  hasType "CommentBlock" n || hasType "Comment" n ||
  (hasType "Hashtag" n && flag (Config.removeHashtags publishConfig)).

(** A place below the root of a tree: the ancestors from the root down to
    the parent, each with the siblings left and right of the way down. *)
Inductive Place : Type :=
  | Under (ty : option string) (f t : option Z) (tx : option string)
          (pre post : list ParseTree)
  | Below (ty : option string) (f t : option Z) (tx : option string)
          (pre : list ParseTree) (inner : Place) (post : list ParseTree).

(** The tree that has the nodes [here] (none, or one) at the place. *)
Fixpoint plug (c : Place) (here : list ParseTree) : ParseTree :=
  match c with
  | Under ty f t tx pre post => Node ty f t tx (Some (pre ++ here ++ post)%list)
  | Below ty f t tx pre inner post =>
      Node ty f t tx (Some (pre ++ plug inner here :: post)%list)
  end.

Section Places.

Variable substituteFn : ParseTree → option Subst.

(** What the visit of one child leaves in its parent's array. *)
Definition visit (child : ParseTree) : option (list ParseTree) :=
  match substituteFn child with
  | None => None
  | Some (Replace subst) => Some [subst]
  | Some Null => Some []
  | Some Undefined => (λ c, [c]) <$> replaceNodesMatching substituteFn child
  end.

(** The traversal gets to the place when the callback passes over every
    ancestor below the root. *)
Fixpoint entered (c : Place) (here : list ParseTree) : Prop :=
  match c with
  | Under _ _ _ _ _ _ => True
  | Below _ _ _ _ _ inner _ =>
      substituteFn (plug inner here) = Some Undefined ∧ entered inner here
  end.

(** The same place after the rewrite of everything around it. *)
Fixpoint replaceAround (c : Place) : option Place :=
  match c with
  | Under ty f t tx pre post =>
      pre' ← replaceChildren substituteFn pre;
      post' ← replaceChildren substituteFn post;
      Some (Under ty f t tx pre' post')
  | Below ty f t tx pre inner post =>
      pre' ← replaceChildren substituteFn pre;
      inner' ← replaceAround inner;
      post' ← replaceChildren substituteFn post;
      Some (Below ty f t tx pre' inner' post')
  end.

End Places.

(** Nodes of type [ty] do not occur below one another, as in a parsed
    document, where a URL node holds its text and nothing else. *)
Definition unnested (ty : string) (t : ParseTree) : Prop :=
  Forall (λ n, hasType ty n = true →
               Forall (λ d, hasType ty d = false) (descendants n))
         (allNodes t).

(** What [writeAttachment] stores under [name]. *)
Definition stored (mimeType : string → string) (clock : Z)
    (bytes name : string) : Stored :=
  {| data := bytes; storedType := mimeType name; storedTime := clock |}.

(** The three rules of the selector, read off one page record. *)
Definition tagRule (publishConfig : PublishConfig) (page : Page.t) : bool :=
  match Config.tags publishConfig, Page.tags page with
  | Some ctags, Some ptags => existsb (λ tag, bool_decide (tag ∈ ctags)) ptags
  | _, _ => false
  end.

Definition prefixRule (publishConfig : PublishConfig) (nm : string) : bool :=
  match Config.prefixes publishConfig with
  | Some ps => existsb (λ prefix, Js.startsWith nm prefix) ps
  | None => false
  end.

Definition shareRule (page : Page.t) : bool :=
  match Page.share page with
  | ShareArray l => arrIncludes l (JStr "pub")
  | ShareScalar v => truthy v && arrIncludes [v] (JStr "pub")
  end.

(** The page is added to the published set by one turn of the loop. *)
Definition selects (publishConfig : PublishConfig) (page : Page.t) : bool :=
  tagRule publishConfig page ||
  match Page.name page with
  | JStr nm => prefixRule publishConfig nm || shareRule page
  | _ => false
  end.

(** The record as one turn of the loop leaves it. *)
Definition wrapShare (page : Page.t) : Page.t :=
  match Page.name page, Page.share page with
  | JStr _, ShareScalar v =>
      if truthy v then Page.setShare page (ShareArray [v]) else page
  | _, _ => page
  end.

(** The listing of a store, and the entry of the manifest as it is laid
    out in [index.json]. *)
Definition listingOf (s : Space) : list FileMeta :=
  metaOf <$> map_to_list (attachments s).

Definition entryText (e : FileMeta) : string :=
  "{" ++ JSON.newline ++
  "    " ++ JSON.quote "name" ++ ": " ++ JSON.quote (File.name e) ++ "," ++
  JSON.newline ++
  "    " ++ JSON.quote "size" ++ ": " ++ pretty (File.size e) ++ "," ++
  JSON.newline ++
  "    " ++ JSON.quote "contentType" ++ ": " ++
  JSON.quote (File.contentType e) ++ "," ++ JSON.newline ++
  "    " ++ JSON.quote "lastModified" ++ ": " ++
  pretty (File.lastModified e) ++ "," ++ JSON.newline ++
  "    " ++ JSON.quote "perm" ++ ": " ++ JSON.quote (File.perm e) ++
  JSON.newline ++ "  }".

(** ** Sample data *)

Module Sample.

Definition node (ty : string) (cs : list ParseTree) : ParseTree :=
  Node (Some ty) None None None (Some cs).

(** The tree of [[[p]]]. *)
Definition link (p : string) : ParseTree :=
  node "WikiLink"
    [node "WikiLinkMark" [textNode "[["];
     node "WikiLinkPage" [textNode p];
     node "WikiLinkMark" [textNode "]]"]].

Definition comment : ParseTree := node "Comment" [textNode "%%todo%%"].
Definition hashtag : ParseTree := node "Hashtag" [textNode "#draft"].
Definition url (u : string) : ParseTree := node "URL" [textNode u].

(** A paragraph with a dead link, a live link, a comment, a hashtag, a
    local image and a remote one. *)
Definition paragraph : ParseTree :=
  node "Paragraph"
    [textNode "See "; link "C"; textNode " and "; link "Home@12"; comment;
     hashtag; url "image.png"; url "https://example.com/x.png"].

Definition doc : ParseTree := node "Document" [paragraph].

(** [doc] after [cleanMarkdown] with the default configuration and the
    published set [{"Home"}]. *)
Definition docCleaned : ParseTree :=
  node "Document"
    [node "Paragraph"
       [textNode "See "; textNode "_C_"; textNode " and "; link "Home@12";
        url "image.png"; url "https://example.com/x.png"]].

(** The place of the first link of [doc], and the same place in
    [docCleaned]. *)
Definition place1 : Place :=
  Below (Some "Document") None None None []
    (Under (Some "Paragraph") None None None
       [textNode "See "]
       [textNode " and "; link "Home@12"; comment; hashtag; url "image.png";
        url "https://example.com/x.png"])
    [].

Definition place1' : Place :=
  Below (Some "Document") None None None []
    (Under (Some "Paragraph") None None None
       [textNode "See "]
       [textNode " and "; link "Home@12"; url "image.png";
        url "https://example.com/x.png"])
    [].

(** The place of the second link of [doc]. *)
Definition place2 : Place :=
  Below (Some "Document") None None None []
    (Under (Some "Paragraph") None None None
       [textNode "See "; link "C"; textNode " and "]
       [comment; hashtag; url "image.png"; url "https://example.com/x.png"])
    [].

Definition place2' : Place :=
  Below (Some "Document") None None None []
    (Under (Some "Paragraph") None None None
       [textNode "See "; textNode "_C_"; textNode " and "]
       [url "image.png"; url "https://example.com/x.png"])
    [].

(** A store with one page whose parse is [doc], and stand-ins for the
    collaborators: the renderer prints the text of the tree it is given and
    the template is the body alone. *)
Definition pageSource : string := "See [[C]] and [[Home@12]]".

Definition space : Space := {|
  catalog := [];
  pageText := {[ "P" := pageSource ]};
  attachments := {[ "image.png" := {| data := "PNG"; storedType := "image/png";
                                      storedTime := 7 |} ]};
|}.

Definition parse (txt : string) : ParseTree := doc.
Definition render (t : ParseTree) : string := default "" (renderToText t).
Definition mime (name : string) : string :=
  if Js.includes ".html" name then "text/html"
  else if Js.includes ".png" name then "image/png"
  else if Js.includes ".json" name then "application/json"
  else "text/markdown".
Definition bodyOnly (d : TemplateData) : option string := Some (body d).
Definition compile (src : string) : TemplateData → option string := bodyOnly.
Definition noCodeBlock (txt : string) : option string := None.

(** The same store with a catalog: page P carries the scalar marker. *)
Definition site : Space := {|
  catalog := [ {| Page.name := JStr "P"; Page.tags := None;
                  Page.share := ShareScalar (JStr "pub") |} ];
  pageText := pageText space;
  attachments := attachments space;
|}.

(** A store that holds output of an earlier run, a file that only shares
    the first letters of the output root, and a note. *)
Definition file (bytes ctype : string) : Stored :=
  {| data := bytes; storedType := ctype; storedTime := 7 |}.

Definition stale : Space := {|
  catalog := [];
  pageText := ∅;
  attachments :=
    {[ "_public/Old.md" := file "old" "text/markdown";
       "_public/Old/index.html" := file "<p>old</p>" "text/html";
       "_publicity/img.png" := file "PNG" "image/png";
       "notes.txt" := file "note" "text/plain" ]};
|}.

(** The listed attachment [_public/Old.md] and its manifest entry. *)
Definition oldMd : FileMeta := {|
  File.name := "_public/Old.md"; File.size := 3;
  File.contentType := "text/markdown"; File.lastModified := 7;
  File.perm := "rw";
|}.

Definition oldMdEntry : FileMeta := {|
  File.name := "Old.md"; File.size := 3;
  File.contentType := "text/markdown"; File.lastModified := 7;
  File.perm := "ro";
|}.


End Sample.

(** ** Vocabulary of the further properties *)

(** From [s] to [s'] the catalog and the page texts are kept, and an
    attachment either is as it was or has a name that satisfies [P] and is
    what [writeAttachment] stores. *)
Definition writesOnly (mimeType : string → string) (clock : Z)
    (P : string → Prop) (s s' : Space) : Prop :=
  catalog s' = catalog s ∧ pageText s' = pageText s ∧
  ∀ p, attachments s' !! p = attachments s !! p ∨
       (P p ∧ ∃ bytes, attachments s' !! p = Some (stored mimeType clock bytes p)).

(** A computation that relates every store to the store it leaves, whether
    it completes or throws. *)
Definition keeps {A : Type} (R : Space → Space → Prop) (m : M A) : Prop :=
  ∀ s, R s (m s).2.

(** No node on the way down to the place is a text node. *)
Fixpoint textless (c : Place) : Prop :=
  match c with
  | Under _ _ _ tx _ _ => tx = None
  | Below _ _ _ tx _ inner _ => tx = None ∧ textless inner
  end.

(** The three rules of the selector in words: a tag of the page is a
    configured tag; a configured prefix starts the name; the share marker is
    the string "pub" or an array that holds it. *)
Definition byTag (publishConfig : PublishConfig) (page : Page.t) : Prop :=
  ∃ ctags ptags tag,
    Config.tags publishConfig = Some ctags ∧ Page.tags page = Some ptags ∧
    tag ∈ ptags ∧ tag ∈ ctags.

Definition byPrefix (publishConfig : PublishConfig) (nm : string) : Prop :=
  ∃ ps prefix,
    Config.prefixes publishConfig = Some ps ∧ prefix ∈ ps ∧
    String.prefix prefix nm = true.

Definition byShare (page : Page.t) : Prop :=
  Page.share page = ShareScalar (JStr "pub") ∨
  ∃ l, Page.share page = ShareArray l ∧ JStr "pub" ∈ l.

(** The loop of [renderToText] over the children, as a function of its
    own. *)
Fixpoint renderChildren (cs : list ParseTree) : option string :=
  match cs with
  | [] => Some ""
  | c :: rest =>
      match renderToText c with
      | None => None
      | Some s => (λ r, s ++ r) <$> renderChildren rest
      end
  end.


(** ** Further sample data *)

Module Sample2.

(** A link whose page child is missing. *)
Definition brokenLink : ParseTree := Sample.node "WikiLink" [].

(** A comment that holds a broken link. *)
Definition brokenComment : ParseTree :=
  Sample.node "Comment" [textNode "%%"; brokenLink; textNode "%%"].

(** A place in a paragraph between two texts, before and after the rewrite
    of what is around it. *)
Definition place : Place :=
  Below (Some "Document") None None None []
    (Under (Some "Paragraph") None None None
       [textNode " See "; Sample.comment] [Sample.hashtag; textNode ". "])
    [].

Definition place' : Place :=
  Below (Some "Document") None None None []
    (Under (Some "Paragraph") None None None
       [textNode " See "] [textNode ". "])
    [].

(** The defaults with [removeHashtags: false]. *)
Definition keepHashtags : PublishConfig :=
  {| Config.title := None; Config.indexPage := None;
     Config.removeHashtags := Some false; Config.publishAll := None;
     Config.tags := None; Config.prefixes := None;
     Config.template := None; Config.generateIndexJson := Some true |}.

Definition tagged : ParseTree :=
  Sample.node "Document"
    [Sample.node "Paragraph"
       [textNode "Done "; Sample.hashtag; Sample.url "image.png"]].


(** A PUBLISH page turned into a configuration that sets [publishAll]. *)
Definition yaml (txt : string) : option PublishConfig :=
  if String.eqb txt "publishAll: true" then
    Some {| Config.title := None; Config.indexPage := None;
            Config.removeHashtags := None; Config.publishAll := Some true;
            Config.tags := None; Config.prefixes := None;
            Config.template := None; Config.generateIndexJson := None |}
  else None.

Definition configured : Space := {|
  catalog := catalog Sample.site;
  pageText := <[ "PUBLISH" := "publishAll: true" ]> (pageText Sample.site);
  attachments := attachments Sample.stale;
|}.

(** A URL node that holds another one. *)
Definition nestedUrl : ParseTree :=
  Sample.node "Document"
    [Sample.node "URL" [textNode "a.png"; Sample.url "b.png"]].

(** A dead link inside a comment. *)
Definition deadLinkInComment : ParseTree :=
  Sample.node "Document" [Sample.node "Comment" [Sample.link "C"]].

(** The store of [Sample.space] without its attachment. *)
Definition bare : Space := {|
  catalog := [];
  pageText := pageText Sample.space;
  attachments := ∅;
|}.

End Sample2.

(** * Lemmas *)

(** ** Trees *)

(** Induction on a tree with the hypothesis for every child. *)
Lemma ParseTree_children_ind (P : ParseTree → Prop) :
  (∀ ty f t tx, P (Node ty f t tx None)) →
  (∀ ty f t tx cs, Forall P cs → P (Node ty f t tx (Some cs))) →
  ∀ n, P n.
Proof.
  intros Hleaf Hnode.
  fix IH 1.
  intros [ty f t tx [cs|]]; [|apply Hleaf].
  apply Hnode.
  induction cs as [|c cs IHcs]; constructor; [apply IH | exact IHcs].
Qed.

Lemma allNodes_unfold t : allNodes t = t :: descendants t.
Proof. destruct t as [ty f t tx [cs|]]; reflexivity. Qed.

Section TreeFacts.

Variable substituteFn : ParseTree → option Subst.

Lemma replaceNodesMatching_node ty f t tx cs :
  replaceNodesMatching substituteFn (Node ty f t tx (Some cs)) =
  (λ cs', Node ty f t tx (Some cs')) <$> replaceChildren substituteFn cs.
Proof.
  reflexivity.
Qed.

Lemma replaceNodesMatching_leaf ty f t tx :
  replaceNodesMatching substituteFn (Node ty f t tx None) =
  Some (Node ty f t tx None).
Proof. reflexivity. Qed.

Lemma replaceChildren_cons child rest :
  replaceChildren substituteFn (child :: rest) =
  (h ← visit substituteFn child; r ← replaceChildren substituteFn rest; Some (h ++ r)%list).
Proof.
  unfold visit. simpl.
  destruct (substituteFn child) as [[| |x]|]; simpl; try reflexivity.
  all: try (destruct (replaceNodesMatching substituteFn child); simpl;
            try reflexivity).
  all: destruct (replaceChildren substituteFn rest); reflexivity.
Qed.

Lemma replaceChildren_app l1 l2 :
  replaceChildren substituteFn (l1 ++ l2) =
  (r1 ← replaceChildren substituteFn l1;
   r2 ← replaceChildren substituteFn l2; Some (r1 ++ r2)%list).
Proof.
  induction l1 as [|c l1 IH].
  - simpl. destruct (replaceChildren substituteFn l2); reflexivity.
  - rewrite <- app_comm_cons, !replaceChildren_cons, IH.
    destruct (visit substituteFn c) as [h|]; simpl; [|reflexivity].
    destruct (replaceChildren substituteFn l1) as [r1|]; simpl; [|reflexivity].
    destruct (replaceChildren substituteFn l2) as [r2|]; simpl; [|reflexivity].
    by rewrite app_assoc.
Qed.

(** The rewrite at a place the traversal gets to. *)
Lemma replaceNodesMatching_plug c c' n h :
  entered substituteFn c [n] →
  replaceAround substituteFn c = Some c' →
  visit substituteFn n = Some h →
  replaceNodesMatching substituteFn (plug c [n]) = Some (plug c' h).
Proof.
  revert c'. induction c as [ty f t tx pre post|ty f t tx pre inner IH post];
    intros c' Hent Har Hv; simpl in Hent, Har; cbn [plug].
  - destruct (replaceChildren substituteFn pre) as [pre'|] eqn:Hpre;
      simpl in Har; [|discriminate].
    destruct (replaceChildren substituteFn post) as [post'|] eqn:Hpost;
      simpl in Har; [|discriminate].
    injection Har as <-.
    change ([n] ++ post)%list with (n :: post).
    rewrite replaceNodesMatching_node, replaceChildren_app, Hpre.
    cbn [mbind option_bind].
    rewrite replaceChildren_cons, Hv. cbn [mbind option_bind].
    rewrite Hpost. reflexivity.
  - destruct Hent as [Hu Hent].
    destruct (replaceChildren substituteFn pre) as [pre'|] eqn:Hpre;
      simpl in Har; [|discriminate].
    destruct (replaceAround substituteFn inner) as [inner'|] eqn:Hin;
      simpl in Har; [|discriminate].
    destruct (replaceChildren substituteFn post) as [post'|] eqn:Hpost;
      simpl in Har; [|discriminate].
    injection Har as <-.
    rewrite replaceNodesMatching_node, replaceChildren_app, Hpre.
    cbn [mbind option_bind].
    rewrite replaceChildren_cons. unfold visit at 1. rewrite Hu.
    rewrite (IH inner' Hent eq_refl Hv). cbn [mbind option_bind fmap option_fmap option_map].
    rewrite Hpost. reflexivity.
Qed.

(** A node below which the callback never answers comes back as it is. *)
Lemma replaceNodesMatching_id n :
  Forall (λ d, substituteFn d = Some Undefined) (descendants n) →
  replaceNodesMatching substituteFn n = Some n.
Proof.
  induction n as [ty f t tx|ty f t tx cs IH] using ParseTree_children_ind;
    intros Hd; [reflexivity|].
  rewrite replaceNodesMatching_node.
  unfold descendants in Hd. simpl in Hd.
  assert (replaceChildren substituteFn cs = Some cs) as ->; [|reflexivity].
  induction cs as [|c cs IHcs]; [reflexivity|].
  simpl in Hd. apply Forall_app in Hd as [Hc Hcs].
  apply Forall_cons in IH as [IHc IH].
  rewrite allNodes_unfold in Hc.
  apply Forall_cons in Hc as [Hc Hcd].
  rewrite replaceChildren_cons. unfold visit.
  rewrite Hc, (IHc Hcd). cbn. rewrite (IHcs IH Hcs). reflexivity.
Qed.

End TreeFacts.

(** ** The rewrite of [cleanMarkdown] *)

Lemma prefix_at_cons c s :
  String.prefix "@" (String c s) = bool_decide (c = "@"%char).
Proof.
  cbn [String.prefix]. destruct (ascii_dec "@" c) as [<-|Hne].
  - rewrite bool_decide_true by reflexivity. by destruct s.
  - rewrite bool_decide_false; [reflexivity|congruence].
Qed.

Lemma includes_at_cons c s :
  Js.includes "@" (String c s) = bool_decide (c = "@"%char) || Js.includes "@" s.
Proof. cbn [Js.includes]. by rewrite prefix_at_cons. Qed.

Lemma splitHead_no_at s : Js.includes "@" s = false → Js.splitHead "@" s = s.
Proof.
  induction s as [|c s IH]; [reflexivity|].
  rewrite includes_at_cons. intros [Hc Hs]%orb_false_elim.
  cbn [Js.splitHead]. rewrite prefix_at_cons, Hc, (IH Hs). reflexivity.
Qed.

Lemma splitHead_at bare suffix :
  Js.includes "@" bare = false →
  Js.splitHead "@" (bare ++ "@" ++ suffix) = bare.
Proof.
  induction bare as [|c s IH].
  { intros _. change ("" ++ "@" ++ suffix) with (String "@" suffix).
    cbn [Js.splitHead]. by rewrite prefix_at_cons. }
  rewrite includes_at_cons. intros [Hc Hs]%orb_false_elim.
  change (String c s ++ "@" ++ suffix) with (String c (s ++ "@" ++ suffix)).
  cbn [Js.splitHead]. rewrite prefix_at_cons, Hc, (IH Hs). reflexivity.
Qed.

Lemma includes_at_app bare suffix :
  Js.includes "@" (bare ++ "@" ++ suffix) = true.
Proof.
  induction bare as [|c s IH].
  { change ("" ++ "@" ++ suffix) with (String "@" suffix).
    by rewrite includes_at_cons. }
  change (String c s ++ "@" ++ suffix) with (String c (s ++ "@" ++ suffix)).
  rewrite includes_at_cons, IH. apply orb_true_r.
Qed.

(** [stripAt] drops the first ["@"] and what follows it. *)
Lemma stripAt_spec page :
  (∀ bare suffix, Js.includes "@" bare = false →
     page = bare ++ "@" ++ suffix → stripAt page = bare) ∧
  (Js.includes "@" page = false → stripAt page = page).
Proof.
  split.
  - intros bare suffix Hb ->. unfold stripAt.
    by rewrite includes_at_app, splitHead_at.
  - intros H. unfold stripAt. by rewrite H.
Qed.

Section CleanFacts.

Variable publishConfig : PublishConfig.
Variable validPages : list JsVal.

Let fn := cleanFn publishConfig validPages.

Lemma hasType_true ty n : hasType ty n = true ↔ type n = Some ty.
Proof. unfold hasType. apply bool_decide_eq_true. Qed.

Lemma hasType_false ty n : hasType ty n = false ↔ type n ≠ Some ty.
Proof. unfold hasType. apply bool_decide_eq_false. Qed.

Lemma cleanFn_wikilink_dead n page :
  type n = Some "WikiLink" → wikiLinkPage n = Some page →
  JStr (stripAt page) ∉ validPages →
  fn n = Some (Replace (textNode ("_" ++ stripAt page ++ "_"))).
Proof.
  intros Hty Hp Hv. unfold fn, cleanFn.
  apply hasType_true in Hty. rewrite Hty, Hp. cbn [mbind option_bind].
  unfold arrIncludes. by rewrite bool_decide_false.
Qed.

Lemma cleanFn_wikilink_live n page :
  type n = Some "WikiLink" → wikiLinkPage n = Some page →
  JStr (stripAt page) ∈ validPages →
  fn n = Some Undefined.
Proof.
  intros Hty Hp Hv. unfold fn, cleanFn.
  assert (hasType "CommentBlock" n = false) as ->
    by (apply hasType_false; congruence).
  assert (hasType "Comment" n = false) as ->
    by (apply hasType_false; congruence).
  assert (hasType "Hashtag" n = false) as ->
    by (apply hasType_false; congruence).
  apply hasType_true in Hty. rewrite Hty, Hp. cbn [mbind option_bind].
  unfold arrIncludes. by rewrite bool_decide_true.
Qed.

Lemma cleanFn_passive n : passive n = true → fn n = Some Undefined.
Proof.
  unfold passive, fn, cleanFn. intros H%negb_true_iff.
  apply orb_false_elim in H as [H Hh].
  apply orb_false_elim in H as [H Hc].
  apply orb_false_elim in H as [Hw Hcb].
  by rewrite Hw, Hcb, Hc, Hh.
Qed.


Lemma replaceNodesMatching_type (f : ParseTree → option Subst) t t' :
  replaceNodesMatching f t = Some t' → type t' = type t.
Proof.
  destruct t as [ty ff tt tx [cs|]].
  - rewrite replaceNodesMatching_node.
    destruct (replaceChildren f cs); cbn; [|discriminate]. by intros [= <-].
  - by intros [= <-].
Qed.




End CleanFacts.

(** What [cleanMarkdown] answers once its rewrite pass has left [mdTree']. *)
Lemma cleanMarkdown_run mdTree publishConfig validPages mdTree' :
  replaceNodesMatching (cleanFn publishConfig validPages) mdTree = Some mdTree' →
  cleanMarkdown mdTree publishConfig validPages =
  (λ s, (mdTree', Js.trim s)) <$> renderToText mdTree'.
Proof.
  intros Hr. unfold cleanMarkdown. rewrite Hr. cbn [mbind option_bind].
  by destruct (renderToText mdTree').
Qed.



(** ** Collecting attachments *)

Lemma filter_none {A} (P : A → Prop) `{∀ x, Decision (P x)} (l : list A) :
  Forall (λ x, ¬ P x) l → filter P l = [].
Proof.
  induction 1 as [|x l Hx _ IH]; [reflexivity|].
  rewrite filter_cons_False by done. exact IH.
Qed.

Lemma collectNodesMatching_node matchFn ty f t tx cs :
  collectNodesMatching matchFn (Node ty f t tx cs) =
  if matchFn (Node ty f t tx cs) then [Node ty f t tx cs]
  else flat_map (collectNodesMatching matchFn) (default [] cs).
Proof.
  cbn [collectNodesMatching]. destruct (matchFn _); [reflexivity|].
  destruct cs as [cs|]; [|reflexivity]. simpl default.
  induction cs as [|c cs IH]; [reflexivity|].
  simpl. congruence.
Qed.

(** Without nesting, the library's collection is the list of all nodes of
    the type in document order. *)
Lemma collectNodesOfType_allNodes ty t :
  unnested ty t →
  collectNodesOfType t ty = filter (λ n, hasType ty n = true) (allNodes t).
Proof.
  unfold collectNodesOfType, unnested.
  induction t as [ty' f t tx|ty' f t tx cs IH] using ParseTree_children_ind;
    intros Hu; rewrite collectNodesMatching_node.
  - rewrite allNodes_unfold. unfold descendants. cbn [children default flat_map].
    rewrite filter_cons, filter_nil.
    destruct (hasType ty (Node ty' f t tx None)) eqn:Hm.
    + by rewrite decide_True.
    + by rewrite decide_False.
  - rewrite allNodes_unfold in Hu |- *.
    apply Forall_cons in Hu as [Hroot Hu].
    rewrite filter_cons.
    destruct (hasType ty (Node ty' f t tx (Some cs))) eqn:Hm.
    + rewrite decide_True by done. f_equal. symmetry. apply filter_none.
      eapply Forall_impl; [exact (Hroot eq_refl)|].
      intros d Hd. by rewrite Hd.
    + rewrite decide_False by done.
      change (default [] (Some cs)) with cs.
      unfold descendants in Hu |- *. cbn [children] in Hu |- *.
      clear Hroot Hm. induction cs as [|c cs IHcs]; [reflexivity|].
      apply Forall_cons in IH as [IHc IH].
      cbn [flat_map] in Hu |- *. apply Forall_app in Hu as [Hc Hu].
      rewrite filter_app, (IHc Hc), (IHcs IH Hu). reflexivity.
Qed.

(** The library's collection finds nodes of the tree that match, in
    document order. *)
Lemma collectNodesMatching_sublist matchFn t :
  collectNodesMatching matchFn t `sublist_of`
  filter (λ n, matchFn n = true) (allNodes t).
Proof.
  induction t as [ty f t tx|ty f t tx cs IH] using ParseTree_children_ind;
    rewrite collectNodesMatching_node, allNodes_unfold, filter_cons.
  - unfold descendants. cbn [children default flat_map]. rewrite filter_nil.
    destruct (matchFn _) eqn:Hm.
    + by rewrite decide_True.
    + by rewrite decide_False.
  - destruct (matchFn (Node ty f t tx (Some cs))) eqn:Hm.
    + rewrite decide_True by done. apply sublist_skip, sublist_nil_l.
    + rewrite decide_False by done.
      change (default [] (Some cs)) with cs.
      unfold descendants. cbn [children]. clear Hm.
      induction cs as [|c cs IHcs]; [done|].
      apply Forall_cons in IH as [IHc IH].
      cbn [flat_map]. rewrite filter_app. apply sublist_app; auto.
Qed.

Lemma filter_isLocal (urls : list string) (u : string) :
  u ∈ filter (λ url, isLocal url = true) urls →
  u ∈ urls ∧ Js.includes "://" u = false.
Proof.
  intros [Hl Hin]%list_elem_of_filter. split; [done|].
  unfold isLocal in Hl. by apply negb_true_iff.
Qed.

(** ** Running code against the store *)

Section StoreFacts.

Variable mimeType : string → string.
Variable clock : Z.

Lemma bind_run {A B} (m : M A) (k : A → M B) s :
  bind m k s = match (m s).1 with
               | Some x => k x (m s).2
               | None => (None, (m s).2)
               end.
Proof. unfold bind. by destruct (m s) as [[x|] s']. Qed.

Lemma writeAttachment_run name bytes s :
  writeAttachment mimeType clock name bytes s =
  (Some tt, {| catalog := catalog s; pageText := pageText s;
               attachments := <[name := stored mimeType clock bytes name]> (attachments s) |}).
Proof. reflexivity. Qed.

Lemma copyAttachment_run destDir a s :
  copyAttachment mimeType clock destDir a s =
  (Some tt,
   match attachments s !! a with
   | Some x =>
       {| catalog := catalog s; pageText := pageText s;
          attachments :=
            <[destDir ++ "/" ++ a := stored mimeType clock (data x) (destDir ++ "/" ++ a)]>
              (attachments s) |}
   | None => s
   end).
Proof.
  unfold copyAttachment, tryCatch, bind, readAttachment.
  destruct (attachments s !! a) as [x|]; reflexivity.
Qed.

Lemma forEach_cons {A} (x : A) l (body : A → M unit) s :
  forEach (x :: l) body s =
  match (body x s).1 with
  | Some _ => forEach l body (body x s).2
  | None => (None, (body x s).2)
  end.
Proof. cbn [forEach]. by rewrite bind_run. Qed.

Lemma copy_path_inj destDir a b :
  destDir ++ "/" ++ a = destDir ++ "/" ++ b → a = b.
Proof. intros H. by do 2 apply String.app_inj in H. Qed.

(** The copy loop of [generatePage]. *)
Lemma copyAttachments_run destDir l s :
  let r := forEach l (copyAttachment mimeType clock destDir) s in
  r.1 = Some tt ∧
  catalog r.2 = catalog s ∧ pageText r.2 = pageText s ∧
  (∀ p, is_Some (attachments s !! p) → is_Some (attachments r.2 !! p)) ∧
  (∀ a, a ∈ l → is_Some (attachments s !! a) →
        is_Some (attachments r.2 !! (destDir ++ "/" ++ a))) ∧
  (∀ p, (∀ a, a ∈ l → p ≠ destDir ++ "/" ++ a) →
        attachments r.2 !! p = attachments s !! p) ∧
  (∀ a x, a ∈ l → attachments s !! a = Some x →
          (∀ b, b ∈ l → a ≠ destDir ++ "/" ++ b) →
          data <$> attachments r.2 !! (destDir ++ "/" ++ a) = Some (data x)).
Proof.
  revert s. induction l as [|a0 l IH]; intros s.
  { cbn. repeat split; try done.
    - intros a Ha. by apply elem_of_nil in Ha.
    - intros a x Ha. by apply elem_of_nil in Ha. }
  cbn zeta. rewrite forEach_cons, copyAttachment_run. cbn [fst snd].
  set (s1 := match attachments s !! a0 with Some x => _ | None => s end).
  destruct (IH s1) as (Hok & Hcat & Hpt & Hmono & Hcopied & Hframe & Hdata).
  assert (catalog s1 = catalog s ∧ pageText s1 = pageText s) as [Hc1 Hp1].
  { unfold s1. by destruct (attachments s !! a0). }
  assert (∀ p, is_Some (attachments s !! p) → is_Some (attachments s1 !! p))
    as Hmono1.
  { intros p Hp. unfold s1. destruct (attachments s !! a0); [|done].
    cbn. rewrite lookup_insert. case_decide; [by eexists|done]. }
  assert (∀ p, p ≠ destDir ++ "/" ++ a0 →
               attachments s1 !! p = attachments s !! p) as Hframe1.
  { intros p Hp. unfold s1. destruct (attachments s !! a0); [|done].
    cbn. by rewrite lookup_insert_ne. }
  split; [exact Hok|]. split; [congruence|]. split; [congruence|].
  split; [by auto|]. split; [|split].
  - intros a [->|Ha]%elem_of_cons Hs.
    + apply Hmono. unfold s1. destruct Hs as [x ->]. cbn.
      rewrite lookup_insert_eq. by eexists.
    + apply Hcopied; auto.
  - intros p Hp. rewrite Hframe.
    + apply Hframe1, Hp, elem_of_cons. by left.
    + intros a Ha. apply Hp, elem_of_cons. by right.
  - intros a x Ha Hx Hne.
    assert (attachments s1 !! a = Some x) as Hx1.
    { rewrite Hframe1; [done|]. apply Hne, elem_of_cons. by left. }
    destruct (decide (a ∈ l)) as [Hal|Hal].
    + apply (Hdata a x Hal Hx1). intros b Hb. apply Hne, elem_of_cons.
      by right.
    + apply elem_of_cons in Ha as [->|Ha]; [|done].
      rewrite Hframe.
      * unfold s1. rewrite Hx. cbn. by rewrite lookup_insert_eq.
      * intros b Hb Heq. apply copy_path_inj in Heq. congruence.
Qed.

End StoreFacts.

(** ** The site generator *)

Section GenerateFacts.

Variable parseMarkdown : string → ParseTree.
Variable renderMarkdownToHtml : ParseTree → string.
Variable mimeType : string → string.
Variable clock : Z.

Lemma generatePage_run nm htmlPath mdPath publishedPages publishConfig destDir
    template s txt mdTree' publishMd l :
  pageText s !! nm = Some txt →
  cleanMarkdown (parseMarkdown txt) publishConfig publishedPages =
    Some (mdTree', publishMd) →
  collectAttachments mdTree' = Some l →
  generatePage parseMarkdown renderMarkdownToHtml mimeType clock (JStr nm)
    htmlPath mdPath publishedPages publishConfig destDir template s =
  let s1 := (forEach l (copyAttachment mimeType clock destDir) s).2 in
  let s2 := (writeAttachment mimeType clock mdPath publishMd s1).2 in
  match template {| pageName := JStr nm; config := publishConfig;
                    body := renderMarkdownToHtml mdTree' |} with
  | Some html => writeAttachment mimeType clock htmlPath html s2
  | None => (None, s2)
  end.
Proof.
  intros Hpage Hclean Hcollect. unfold generatePage.
  rewrite bind_run. cbn [readPage fst snd]. rewrite Hpage.
  rewrite bind_run, Hclean. cbn [liftOption ret fst snd].
  rewrite bind_run, Hcollect. cbn [liftOption ret fst snd].
  rewrite bind_run.
  destruct (copyAttachments_run mimeType clock destDir l s) as (-> & _).
  rewrite bind_run. cbn [writeAttachment fst snd].
  rewrite bind_run.
  destruct (template _) as [html|]; reflexivity.
Qed.

(** The store that [generatePage] leaves, by way of the store that its
    copy loop leaves. *)
Lemma generatePage_after_copies nm htmlPath mdPath publishedPages publishConfig
    destDir template s txt mdTree' publishMd l :
  pageText s !! nm = Some txt →
  cleanMarkdown (parseMarkdown txt) publishConfig publishedPages =
    Some (mdTree', publishMd) →
  collectAttachments mdTree' = Some l →
  let r := generatePage parseMarkdown renderMarkdownToHtml mimeType clock
             (JStr nm) htmlPath mdPath publishedPages publishConfig destDir
             template s in
  let s1 := (forEach l (copyAttachment mimeType clock destDir) s).2 in
  r.1 = (λ _, tt) <$> template {| pageName := JStr nm; config := publishConfig;
                                  body := renderMarkdownToHtml mdTree' |} ∧
  (∀ p, is_Some (attachments s1 !! p) → is_Some (attachments r.2 !! p)) ∧
  (∀ p, p ≠ mdPath → p ≠ htmlPath →
        attachments r.2 !! p = attachments s1 !! p).
Proof.
  intros Hpage Hclean Hcollect r s1. unfold r.
  rewrite (generatePage_run _ _ _ _ _ _ _ _ _ _ _ _ Hpage Hclean Hcollect).
  cbn zeta. fold s1. rewrite writeAttachment_run. cbn [snd].
  destruct (template _) as [html|].
  - rewrite writeAttachment_run. cbn [fst snd attachments].
    split; [done|]. split.
    + intros p Hp. rewrite lookup_insert. case_decide; [by eexists|].
      rewrite lookup_insert. case_decide; [by eexists|done].
    + intros p Hm Hh. by rewrite !lookup_insert_ne.
  - cbn [fst snd attachments]. split; [done|]. split.
    + intros p Hp. rewrite lookup_insert. case_decide; [by eexists|done].
    + intros p Hm Hh. by rewrite lookup_insert_ne.
Qed.

End GenerateFacts.

(** ** Sets and maps *)

Lemma setAdd_elem s x y : y ∈ setAdd s x ↔ y ∈ s ∨ y = x.
Proof.
  unfold setAdd. case_bool_decide as Hx.
  - split; [by left|]. intros [?| ->]; done.
  - rewrite elem_of_app, list_elem_of_singleton. done.
Qed.

Lemma setAdd_NoDup s x : NoDup s → NoDup (setAdd s x).
Proof.
  intros Hs. unfold setAdd. case_bool_decide as Hx; [done|].
  apply NoDup_app. split; [done|]. split; [|apply NoDup_singleton].
  intros y Hy ->%list_elem_of_singleton. done.
Qed.

Lemma setAdd_idem s x : setAdd (setAdd s x) x = setAdd s x.
Proof.
  unfold setAdd at 1. rewrite bool_decide_true; [done|].
  apply setAdd_elem. by right.
Qed.

Lemma foldl_setAdd_elem l s y :
  y ∈ foldl setAdd s l ↔ y ∈ s ∨ y ∈ l.
Proof.
  revert s. induction l as [|x l IH]; intros s; cbn.
  - rewrite elem_of_nil. tauto.
  - rewrite IH, setAdd_elem, elem_of_cons. tauto.
Qed.

Lemma foldl_setAdd_NoDup l s : NoDup s → NoDup (foldl setAdd s l).
Proof.
  revert s. induction l as [|x l IH]; intros s Hs; cbn; [done|].
  by apply IH, setAdd_NoDup.
Qed.

Lemma foldl_setAdd_fresh l s : NoDup (s ++ l) → foldl setAdd s l = (s ++ l)%list.
Proof.
  revert s. induction l as [|x l IH]; intros s Hs; cbn.
  - by rewrite app_nil_r.
  - assert (setAdd s x = s ++ [x])%list as ->.
    { unfold setAdd. rewrite bool_decide_false; [done|].
      apply NoDup_app in Hs as (_ & Hd & _). intros Hx.
      apply (Hd x Hx), elem_of_cons. by left. }
    rewrite IH; rewrite <- app_assoc; done.
Qed.

Lemma newSet_elem l y : y ∈ newSet l ↔ y ∈ l.
Proof.
  unfold newSet. rewrite foldl_setAdd_elem, elem_of_nil. tauto.
Qed.

Lemma newSet_NoDup l : NoDup (newSet l).
Proof. apply foldl_setAdd_NoDup, NoDup_nil_2. Qed.

Lemma newSet_idem l : newSet (newSet l) = newSet l.
Proof.
  unfold newSet at 1. rewrite foldl_setAdd_fresh; [done|]. apply newSet_NoDup.
Qed.

Lemma foldl_cond_setAdd {A} (P : A → bool) x l s :
  foldl (λ s y, if P y then setAdd s x else s) s l =
  if existsb P l then setAdd s x else s.
Proof.
  revert s. induction l as [|y l IH]; intros s; cbn; [done|].
  rewrite IH. destruct (P y); cbn; [|done].
  rewrite setAdd_idem. by destruct (existsb P l).
Qed.

Lemma mapSet_keys {V} k (v : V) m : (mapSet k v m).*1 = setAdd (m.*1) k.
Proof.
  induction m as [|[k' v'] m IH]; [reflexivity|].
  cbn [mapSet]. unfold setAdd in *. destruct (decide (k = k')) as [->|Hne].
  - cbn. rewrite bool_decide_true; [done|]. apply elem_of_cons. by left.
  - cbn [fmap list_fmap fst]. cbn [fmap] in IH. rewrite IH.
    case_bool_decide as Hin.
    + rewrite bool_decide_true; [done|]. apply elem_of_cons. by right.
    + rewrite bool_decide_false; [done|].
      intros [?|?]%elem_of_cons; done.
Qed.

Lemma mapSet_elem {V} k (v : V) m e :
  e ∈ mapSet k v m → e = (k, v) ∨ e ∈ m.
Proof.
  induction m as [|[k' v'] m IH]; cbn [mapSet].
  - intros ->%list_elem_of_singleton. by left.
  - destruct (decide (k = k')) as [->|Hne].
    + intros [->|?]%elem_of_cons; [by left|]. right. apply elem_of_cons. by right.
    + intros [->|He]%elem_of_cons.
      * right. apply elem_of_cons. by left.
      * destruct (IH He) as [->|?]; [by left|]. right. apply elem_of_cons.
        by right.
Qed.

Lemma newMap_keys {V} (entries : list (JsVal * V)) :
  (newMap entries).*1 = newSet (entries.*1).
Proof.
  unfold newMap, newSet.
  change (@nil JsVal) with ((@nil (JsVal * V)).*1).
  generalize (@nil (JsVal * V)) as m.
  induction entries as [|[k v] entries IH]; intros m; cbn; [done|].
  by rewrite IH, mapSet_keys.
Qed.

Lemma newMap_elem {V} (entries : list (JsVal * V)) e :
  e ∈ newMap entries → e ∈ entries.
Proof.
  unfold newMap.
  assert (∀ m, e ∈ foldl (λ m e, mapSet e.1 e.2 m) m entries →
               e ∈ m ∨ e ∈ entries) as H.
  { induction entries as [|[k v] entries IH]; intros m; cbn; [by left|].
    intros [He|He]%IH.
    - apply mapSet_elem in He as [->|?]; [right|by left].
      apply elem_of_cons. by left.
    - right. apply elem_of_cons. by right. }
  intros [He|He]%H; [|done]. by apply elem_of_nil in He.
Qed.

(** ** The catalog map *)

Lemma allPageMap_keys recs :
  (allPageMap recs).*1 = newSet (Page.name <$> recs).
Proof.
  unfold allPageMap. rewrite newMap_keys. f_equal.
  rewrite fmap_imap. apply imap_const.
Qed.

Lemma allPageMap_elem recs k a :
  (k, a) ∈ allPageMap recs → Page.name <$> recs !! a = Some k.
Proof.
  intros He%newMap_elem.
  apply list_elem_of_lookup in He as [i Hi].
  rewrite list_lookup_imap in Hi.
  destruct (recs !! i) as [pm|] eqn:Hpm; [|discriminate].
  cbn in Hi. injection Hi as <- <-. by rewrite Hpm.
Qed.

Lemma allPageMap_names recs :
  omap (λ a, Page.name <$> recs !! a) (mapValues (allPageMap recs)) =
  (allPageMap recs).*1.
Proof.
  unfold mapValues.
  assert (Forall (λ e, Page.name <$> recs !! e.2 = Some e.1) (allPageMap recs))
    as H.
  { apply Forall_forall. intros [k a]. apply allPageMap_elem. }
  induction H as [|[k a] m Hka _ IH]; [reflexivity|].
  cbn in Hka |- *. rewrite Hka. cbn. f_equal. exact IH.
Qed.

Lemma allPageMap_values_NoDup recs : NoDup (mapValues (allPageMap recs)).
Proof.
  unfold mapValues.
  apply (NoDup_fmap_1 (λ a, Page.name <$> recs !! a)).
  assert ((λ a, Page.name <$> recs !! a) <$> (allPageMap recs).*2 =
          Some <$> (allPageMap recs).*1) as ->.
  { rewrite <- !list_fmap_compose. apply list_fmap_ext.
    intros i [k a] Hi. cbn. apply allPageMap_elem.
    apply list_elem_of_lookup. eauto. }
  apply NoDup_fmap_2; [apply _|].
  rewrite allPageMap_keys. apply newSet_NoDup.
Qed.

Lemma allPageMap_values_lookup recs a :
  a ∈ mapValues (allPageMap recs) → is_Some (recs !! a).
Proof.
  unfold mapValues. intros ([k a'] & -> & He)%list_elem_of_fmap.
  apply allPageMap_elem in He. cbn. destruct (recs !! a'); [by eexists|done].
Qed.

(** Every name of the catalog has its place in the map. *)
Lemma allPageMap_covers recs p :
  p ∈ recs →
  ∃ a q, a ∈ mapValues (allPageMap recs) ∧ recs !! a = Some q ∧
         Page.name q = Page.name p.
Proof.
  intros Hp.
  assert (Page.name p ∈ (allPageMap recs).*1) as Hk.
  { rewrite allPageMap_keys. apply newSet_elem, list_elem_of_fmap. eauto. }
  apply list_elem_of_fmap in Hk as ([k a] & Hk & He). cbn in Hk. subst k.
  pose proof (allPageMap_elem _ _ _ He) as Hn.
  destruct (recs !! a) as [q|] eqn:Hq; [|discriminate].
  injection Hn as Hn. exists a, q. split; [|done].
  unfold mapValues. apply list_elem_of_fmap. by exists (Page.name p, a).
Qed.

(** ** The selection loop *)

Section SelectFacts.

Variable publishConfig : PublishConfig.

(** One turn of the loop: the page is added when a rule selects it, and a
    truthy scalar share marker of a page with a string name is wrapped. *)
Lemma selectStep_run set recs a page :
  recs !! a = Some page →
  selectStep publishConfig (set, recs) a =
  (if selects publishConfig page then setAdd set (Page.name page) else set,
   <[a := wrapShare page]> recs).
Proof.
  intros Ha. unfold selectStep. rewrite Ha.
  unfold selects, tagRule, prefixRule, shareRule, wrapShare.
  set (set1 := match Config.tags publishConfig, Page.tags page with
               | Some ctags, Some ptags => foldl _ set ptags
               | _, _ => set
               end).
  assert (set1 = if match Config.tags publishConfig, Page.tags page with
                    | Some ctags, Some ptags =>
                        existsb (λ tag, bool_decide (tag ∈ ctags)) ptags
                    | _, _ => false
                    end
                 then setAdd set (Page.name page) else set) as ->.
  { unfold set1. destruct (Config.tags publishConfig) as [ctags|]; [|done].
    destruct (Page.tags page) as [ptags|]; [|done].
    apply (foldl_cond_setAdd (λ tag, bool_decide (tag ∈ ctags))). }
  set (tagged := match Config.tags publishConfig, Page.tags page with
                 | Some ctags, Some ptags => existsb _ ptags
                 | _, _ => false
                 end).
  destruct (Page.name page) as [| | | |nm] eqn:Hnm;
    try (rewrite orb_false_r, list_insert_id by done; reflexivity).
  set (set2 := match Config.prefixes publishConfig with
               | Some ps => foldl _ _ ps
               | None => _
               end).
  assert (set2 = if tagged || match Config.prefixes publishConfig with
                              | Some ps => existsb (λ prefix, Js.startsWith nm prefix) ps
                              | None => false
                              end
                 then setAdd set (JStr nm) else set) as ->.
  { unfold set2. destruct (Config.prefixes publishConfig) as [ps|].
    - rewrite (foldl_cond_setAdd (λ prefix, Js.startsWith nm prefix)).
      destruct tagged; cbn; [|done].
      rewrite setAdd_idem. by destruct (existsb _ ps).
    - by rewrite orb_false_r. }
  set (pre := match Config.prefixes publishConfig with
              | Some ps => existsb _ ps
              | None => false
              end).
  destruct (Page.share page) as [v|l] eqn:Hsh; cbn [shareTruthy].
  - destruct (truthy v); cbn [andb].
    + f_equal. destruct (tagged || pre) eqn:Htp.
      * rewrite orb_assoc, Htp. cbn. rewrite setAdd_idem.
        by destruct (arrIncludes [v] (JStr "pub")).
      * rewrite orb_assoc, Htp. reflexivity.
    + rewrite orb_false_r. by rewrite list_insert_id.
  - rewrite list_insert_id by done. f_equal.
    destruct (tagged || pre) eqn:Htp.
    + rewrite orb_assoc, Htp. cbn. rewrite setAdd_idem.
      by destruct (arrIncludes l (JStr "pub")).
    + rewrite orb_assoc, Htp. reflexivity.
Qed.

Lemma selectStep_absent set recs a :
  recs !! a = None → selectStep publishConfig (set, recs) a = (set, recs).
Proof. intros Ha. unfold selectStep. by rewrite Ha. Qed.

(** The loop over distinct positions. *)
Lemma selectLoop_run addrs :
  NoDup addrs →
  ∀ set recs,
    let r := foldl (selectStep publishConfig) (set, recs) addrs in
    (∀ i, r.2 !! i =
          if decide (i ∈ addrs) then wrapShare <$> recs !! i else recs !! i) ∧
    (∀ x, x ∈ r.1 ↔
          x ∈ set ∨
          ∃ a page, a ∈ addrs ∧ recs !! a = Some page ∧
                    selects publishConfig page = true ∧ Page.name page = x) ∧
    (NoDup set → NoDup r.1) ∧
    length r.2 = length recs.
Proof.
  induction 1 as [|a addrs Ha Hnd IH]; intros set recs.
  { cbn. split; [|split; [|done]].
    - intros i. by rewrite decide_False by apply not_elem_of_nil.
    - intros x. split; [by left|]. intros [?|(a & p & Ha & _)]; [done|].
      by apply elem_of_nil in Ha. }
  cbn [foldl]. cbn zeta.
  destruct (recs !! a) as [page|] eqn:Hpage.
  - rewrite (selectStep_run set recs a page Hpage).
    set (set1 := if selects publishConfig page then _ else set).
    set (recs1 := <[a := wrapShare page]> recs).
    destruct (IH set1 recs1) as (Hrecs & Hset & Hnodup & Hlen).
    assert (a < length recs) as Hlt by (by eapply lookup_lt_Some).
    split; [|split; [|split]].
    + intros i. rewrite Hrecs. unfold recs1.
      destruct (decide (i = a)) as [->|Hia].
      * rewrite decide_False by done. rewrite decide_True by (by left).
        rewrite list_lookup_insert_eq by done. by rewrite Hpage.
      * rewrite list_lookup_insert_ne by done.
        destruct (decide (i ∈ addrs)) as [Hi|Hi].
        -- rewrite decide_True by (by right). done.
        -- rewrite decide_False; [done|]. intros [?|?]%elem_of_cons; done.
    + intros x. rewrite Hset. split.
      * intros [Hx|(a' & p' & Ha' & Hp' & Hs & Hn)].
        -- unfold set1 in Hx. destruct (selects publishConfig page) eqn:Hsel.
           ++ apply setAdd_elem in Hx as [?| ->]; [by left|]. right.
              exists a, page. split; [by left|done].
           ++ by left.
        -- right. exists a', p'. split; [by right|]. split; [|done].
           unfold recs1 in Hp'. rewrite list_lookup_insert_ne in Hp'; [done|].
           intros ->. done.
      * intros [Hx|(a' & p' & Ha' & Hp' & Hs & Hn)].
        -- left. unfold set1. destruct (selects publishConfig page); [|done].
           apply setAdd_elem. by left.
        -- apply elem_of_cons in Ha' as [->|Ha'].
           ++ left. unfold set1. assert (p' = page) as -> by congruence.
              rewrite Hs. apply setAdd_elem. by right.
           ++ right. exists a', p'. split; [done|]. split; [|done].
              unfold recs1. rewrite list_lookup_insert_ne; [done|].
              intros ->. done.
    + intros Hs. apply Hnodup. unfold set1.
      destruct (selects publishConfig page); [by apply setAdd_NoDup|done].
    + rewrite Hlen. unfold recs1. by rewrite length_insert.
  - rewrite (selectStep_absent set recs a Hpage).
    destruct (IH set recs) as (Hrecs & Hset & Hnodup & Hlen).
    split; [|split; [|split]]; [| |done|done].
    + intros i. rewrite Hrecs.
      destruct (decide (i = a)) as [->|Hia].
      * rewrite decide_False by done. rewrite decide_True by (by left).
        by rewrite Hpage.
      * destruct (decide (i ∈ addrs)) as [Hi|Hi].
        -- rewrite decide_True by (by right). done.
        -- rewrite decide_False; [done|]. intros [?|?]%elem_of_cons; done.
    + intros x. rewrite Hset. split.
      * intros [?|(a' & p' & Ha' & Hp' & Hs & Hn)]; [by left|].
        right. exists a', p'. split; [by right|done].
      * intros [?|(a' & p' & Ha' & Hp' & Hs & Hn)]; [by left|].
        apply elem_of_cons in Ha' as [->|Ha']; [congruence|].
        right. by exists a', p'.
Qed.

End SelectFacts.

(** ** The manifest *)

Lemma slice_app d rest :
  Js.slice (String.length d + 1) (d ++ "/" ++ rest) = rest.
Proof. induction d as [|c d IH]; [reflexivity|exact IH]. Qed.

Lemma publishedFiles_elem destDir listing e :
  e ∈ publishedFiles destDir listing →
  ∃ f, f ∈ listing ∧
       Js.startsWith (File.name f) destDir = true ∧
       File.contentType f ≠ "text/html" ∧
       e = publishedFile destDir f.
Proof.
  induction listing as [|f listing IH]; cbn [publishedFiles].
  { intros He. by apply elem_of_nil in He. }
  assert (e ∈ publishedFiles destDir listing →
          ∃ f0, f0 ∈ f :: listing ∧ Js.startsWith (File.name f0) destDir = true ∧
                File.contentType f0 ≠ "text/html" ∧ e = publishedFile destDir f0) as Hrest.
  { intros (f0 & Hf0 & ?)%IH. exists f0. split; [by right|done]. }
  destruct (Js.startsWith (File.name f) destDir) eqn:Hp; [|exact Hrest].
  destruct (String.eqb (File.contentType f) "text/html") eqn:Hc; [exact Hrest|].
  intros [->|He]%elem_of_cons; [|by apply Hrest].
  exists f. split; [by left|]. split; [done|]. split; [|done].
  by apply String.eqb_neq.
Qed.

Lemma publishedFiles_intro destDir listing f :
  f ∈ listing →
  Js.startsWith (File.name f) destDir = true →
  File.contentType f ≠ "text/html" →
  publishedFile destDir f ∈ publishedFiles destDir listing.
Proof.
  intros Hf Hp Hc. induction listing as [|f0 listing IH].
  { by apply elem_of_nil in Hf. }
  cbn [publishedFiles]. apply elem_of_cons in Hf as [<-|Hf].
  - rewrite Hp. apply String.eqb_neq in Hc. rewrite Hc. by left.
  - destruct (Js.startsWith (File.name f0) destDir); [|by apply IH].
    destruct (String.eqb (File.contentType f0) "text/html"); [by apply IH|].
    right. by apply IH.
Qed.

Lemma string_app_assoc (s1 s2 s3 : string) :
  (s1 ++ s2) ++ s3 = s1 ++ s2 ++ s3.
Proof.
  induction s1 as [|c s1 IH]; [reflexivity|].
  change (String c ((s1 ++ s2) ++ s3) = String c (s1 ++ s2 ++ s3)).
  by rewrite IH.
Qed.

Lemma serialize_entry e :
  JSON.serialize "  " "  " (fileMetaJson e) = entryText e.
Proof.
  unfold entryText, JSON.quote.
  cbv -[pretty JSON.quoteBody append File.name File.size File.contentType
        File.lastModified File.perm].
  rewrite !string_app_assoc. reflexivity.
Qed.

(** The text of the manifest: entries two spaces in, their fields four. *)
Lemma stringify_manifest (es : list FileMeta) :
  JSON.stringify (JsonArr (fileMetaJson <$> es)) 2 =
  match es with
  | [] => "[]"
  | _ => "[" ++ JSON.newline ++ "  " ++
         String.concat ("," ++ JSON.newline ++ "  ") (entryText <$> es) ++
         JSON.newline ++ "]"
  end.
Proof.
  unfold JSON.stringify.
  change (String.concat "" (replicate (2 `min` 10) " ")) with "  ".
  cbn [JSON.serialize]. change ("" ++ "  ") with "  ".
  assert (map (JSON.serialize "  " "  ") (fileMetaJson <$> es) =
          entryText <$> es) as ->.
  { induction es as [|e es IH]; [reflexivity|].
    cbn [fmap list_fmap map]. cbn [fmap] in IH. rewrite IH.
    by rewrite serialize_entry. }
  destruct es as [|e es]; reflexivity.
Qed.

Section ManifestFacts.

Variable mimeType : string → string.
Variable clock : Z.

Lemma writeIndexJson_run destDir s :
  writeIndexJson mimeType clock destDir s =
  writeAttachment mimeType clock (destDir ++ "/index.json")
    (JSON.stringify
       (JsonArr (fileMetaJson <$> publishedFiles destDir (listingOf s))) 2) s.
Proof. reflexivity. Qed.

(** ** Cleaning the output root *)

Lemma cleanLoop_run destDir (listing : list FileMeta) s :
  let r := forEach listing (λ attachment,
             if Js.startsWith (File.name attachment) destDir
             then deleteAttachment (File.name attachment)
             else ret tt) s in
  r.1 = Some tt ∧ catalog r.2 = catalog s ∧ pageText r.2 = pageText s ∧
  ∀ p, attachments r.2 !! p =
       if String.prefix destDir p && bool_decide (p ∈ File.name <$> listing)
       then None else attachments s !! p.
Proof.
  revert s. induction listing as [|f listing IH]; intros s.
  { cbn. repeat split. intros p. by rewrite andb_false_r. }
  cbn zeta. rewrite forEach_cons.
  set (s1 := ((if Js.startsWith (File.name f) destDir
               then deleteAttachment (File.name f) else ret tt) s).2).
  assert (((if Js.startsWith (File.name f) destDir
            then deleteAttachment (File.name f) else ret tt) s).1 = Some tt)
    as -> by (by destruct (Js.startsWith _ _)).
  destruct (IH s1) as (Hok & Hcat & Hpt & Hat).
  assert (catalog s1 = catalog s ∧ pageText s1 = pageText s ∧
          attachments s1 = if String.prefix destDir (File.name f)
                           then delete (File.name f) (attachments s)
                           else attachments s) as (Hc1 & Hp1 & Ha1).
  { unfold s1, Js.startsWith. by destruct (String.prefix _ _). }
  split; [exact Hok|]. split; [congruence|]. split; [congruence|].
  intros p. rewrite Hat, Ha1. cbn [fmap list_fmap].
  destruct (String.prefix destDir p) eqn:Hp; cbn [andb].
  - destruct (decide (p = File.name f)) as [->|Hne].
    + rewrite Hp, lookup_delete_eq.
      rewrite (bool_decide_true (_ ∈ _ :: _)) by (by left).
      by case_bool_decide.
    + assert ((if String.prefix destDir (File.name f)
               then delete (File.name f) (attachments s)
               else attachments s) !! p = attachments s !! p) as ->.
      { destruct (String.prefix _ _); [by rewrite lookup_delete_ne|done]. }
      case_bool_decide as Hin.
      * rewrite bool_decide_true; [done|]. by right.
      * rewrite bool_decide_false; [done|].
        intros [?|?]%elem_of_cons; done.
  - destruct (String.prefix destDir (File.name f)) eqn:Hf; [|done].
    rewrite lookup_delete_ne; [done|]. intros <-. congruence.
Qed.

Lemma listingOf_names s p :
  p ∈ File.name <$> listingOf s ↔ is_Some (attachments s !! p).
Proof.
  unfold listingOf. rewrite <- list_fmap_compose. split.
  - intros ([k x] & -> & He%elem_of_map_to_list)%list_elem_of_fmap.
    cbn. by eexists.
  - intros [x Hx]. apply list_elem_of_fmap. exists (p, x).
    split; [done|]. by apply elem_of_map_to_list.
Qed.

Lemma cleanDestDir_run destDir s :
  let r := cleanDestDir destDir s in
  r.1 = Some tt ∧ catalog r.2 = catalog s ∧ pageText r.2 = pageText s ∧
  ∀ p, attachments r.2 !! p =
       if String.prefix destDir p then None else attachments s !! p.
Proof.
  cbn zeta. unfold cleanDestDir. rewrite bind_run.
  cbn [listAttachments fst snd]. fold (listingOf s).
  destruct (cleanLoop_run destDir (listingOf s) s) as (Hok & Hc & Hp & Ha).
  split; [exact Hok|]. split; [exact Hc|]. split; [exact Hp|].
  intros p. rewrite Ha. destruct (String.prefix destDir p); [|done].
  cbn [andb]. case_bool_decide as Hin; [done|].
  destruct (attachments s !! p) eqn:Hl; [|done].
  exfalso. apply Hin, listingOf_names. by eexists.
Qed.

End ManifestFacts.

(** * The claims *)

(** ** The document transformer *)

(** C1, as the code has it: a WikiLink node whose ancestors below the
    root the rewrite passes over, and whose page name cut at the first "@"
    is not in the published set, is replaced at its place by the text node
    "_name_": that is the tree [cleanMarkdown] leaves, and its trimmed text
    is what [cleanMarkdown] answers. A link whose cut name is in the set
    stays at its place as a WikiLink node, rewritten below; it is the same
    node when nothing below it is a link, a comment or a hashtag. *)
Theorem cleanMarkdown_wikilink (publishConfig : PublishConfig)
    (validPages : list JsVal) (c c' : Place) (n : ParseTree) (page : string) :
  type n = Some "WikiLink" →
  wikiLinkPage n = Some page →
  entered (cleanFn publishConfig validPages) c [n] →
  replaceAround (cleanFn publishConfig validPages) c = Some c' →
  (JStr (stripAt page) ∉ validPages →
   let mdTree' := plug c' [textNode ("_" ++ stripAt page ++ "_")] in
   cleanMarkdown (plug c [n]) publishConfig validPages =
   (λ s, (mdTree', Js.trim s)) <$> renderToText mdTree') ∧
  (JStr (stripAt page) ∈ validPages →
   (∀ n', replaceNodesMatching (cleanFn publishConfig validPages) n = Some n' →
      type n' = Some "WikiLink" ∧
      cleanMarkdown (plug c [n]) publishConfig validPages =
      (λ s, (plug c' [n'], Js.trim s)) <$> renderToText (plug c' [n'])) ∧
   (Forall (λ d, passive d = true) (descendants n) →
    cleanMarkdown (plug c [n]) publishConfig validPages =
    (λ s, (plug c' [n], Js.trim s)) <$> renderToText (plug c' [n]))) ∧
  (∀ bare suffix, Js.includes "@" bare = false →
     page = bare ++ "@" ++ suffix → stripAt page = bare) ∧
  (Js.includes "@" page = false → stripAt page = page).
Proof.
  intros Hty Hp Hent Har. split; [|split; [|apply stripAt_spec]].
  - intros Hdead mdTree'. apply cleanMarkdown_run.
    apply replaceNodesMatching_plug; [done..|]. unfold visit.
    by rewrite (cleanFn_wikilink_dead publishConfig validPages n page).
  - intros Hlive.
    assert (∀ n', replaceNodesMatching (cleanFn publishConfig validPages) n
                  = Some n' →
            cleanMarkdown (plug c [n]) publishConfig validPages =
            (λ s, (plug c' [n'], Js.trim s)) <$> renderToText (plug c' [n']))
      as Hkept.
    { intros n' Hn'. apply cleanMarkdown_run.
      apply replaceNodesMatching_plug; [done..|]. unfold visit.
      rewrite (cleanFn_wikilink_live publishConfig validPages n page) by done.
      by rewrite Hn'. }
    split.
    + intros n' Hn'. split; [|by apply Hkept].
      by rewrite (replaceNodesMatching_type _ n n' Hn').
    + intros Hd. apply Hkept. apply replaceNodesMatching_id.
      eapply Forall_impl; [exact Hd|]. intros d. apply cleanFn_passive.
Qed.

Lemma cleanMarkdown_wikilink_witness :
  cleanMarkdown (plug Sample.place1 [Sample.link "C"]) defaultPublishConfig
    [JStr "Home"] =
  Some (plug Sample.place1' [textNode "_C_"],
        "See _C_ and [[Home@12]]image.pnghttps://example.com/x.png") ∧
  cleanMarkdown (plug Sample.place2 [Sample.link "Home@12"])
    defaultPublishConfig [JStr "Home"] =
  Some (plug Sample.place2' [Sample.link "Home@12"],
        "See _C_ and [[Home@12]]image.pnghttps://example.com/x.png") ∧
  stripAt "Home@12" = "Home".
Proof.
  split; [|split].
  - refine (eq_trans (proj1 (cleanMarkdown_wikilink defaultPublishConfig
              [JStr "Home"] Sample.place1 Sample.place1' (Sample.link "C") "C"
              eq_refl eq_refl _ eq_refl) _) eq_refl).
    + split; [reflexivity|exact I].
    + intros H. apply list_elem_of_singleton in H. discriminate H.
  - refine (eq_trans (proj2 (proj1 (proj2 (cleanMarkdown_wikilink
              defaultPublishConfig
              [JStr "Home"] Sample.place2 Sample.place2'
              (Sample.link "Home@12") "Home@12"
              eq_refl eq_refl _ eq_refl)) _) _) eq_refl).
    + split; [reflexivity|exact I].
    + apply list_elem_of_singleton. reflexivity.
    + repeat constructor.
  - refine (proj1 (proj2 (proj2 (cleanMarkdown_wikilink defaultPublishConfig
              [JStr "Home"] Sample.place2 Sample.place2'
              (Sample.link "Home@12") "Home@12"
              eq_refl eq_refl _ eq_refl))) "Home" "12" eq_refl eq_refl).
    split; [reflexivity|exact I].
Defined.

(** C1 as the spec states it fails: a link to an unpublished page inside
    a comment is a WikiLink node of the tree, and [cleanMarkdown] deletes it
    with the comment; no text node "_C_" takes its place. *)
Lemma cleanMarkdown_dead_link_in_comment :
  let n := Sample.link "C" in
  let mdTree := Sample2.deadLinkInComment in
  n ∈ allNodes mdTree ∧ type n = Some "WikiLink" ∧
  wikiLinkPage n = Some "C" ∧ (JStr (stripAt "C") ∉ [JStr "Home"]) ∧
  cleanMarkdown mdTree defaultPublishConfig [JStr "Home"] =
    Some (Sample.node "Document" [], "") ∧
  (textNode "_C_" ∉ allNodes (Sample.node "Document" [])).
Proof.
  intros n mdTree. split; [|split; [|split; [|split; [|split]]]];
    try reflexivity.
  - cbn. do 2 (apply elem_of_cons; right). apply elem_of_cons. by left.
  - intros H. apply list_elem_of_singleton in H. discriminate H.
  - intros H. apply list_elem_of_singleton in H. discriminate H.
Qed.




Section GenerateClaims.

Variable parseMarkdown : string → ParseTree.
Variable renderMarkdownToHtml : ParseTree → string.
Variable mimeType : string → string.
Variable clock : Z.

(** C7, as the code has it. [collectAttachments] reads the URL nodes that
    [collectNodesOfType] finds: nodes of the tree in document order, all
    the URL nodes when none lies inside another; it answers with those of
    their texts that hold no "://", in that order and with repetitions.
    [generatePage] collects from the tree as [cleanMarkdown] left it, throws
    without writing when a URL node has no text to read, and otherwise
    copies every collected attachment that the store can read to the output
    root joined with "/" and the attachment's path, with the bytes it read;
    one that cannot be read is passed over. Apart from the two files of the
    page it writes nowhere else: in particular not where a text holding
    "://" would go. *)
Theorem collectAttachments_local_urls_copied
    (t : ParseTree) (nm htmlPath mdPath : string) (publishedPages : list JsVal)
    (publishConfig : PublishConfig) (destDir : string)
    (template : TemplateData → option string) (s : Space)
    (txt : string) (mdTree' : ParseTree) (publishMd : string) :
  (collectNodesOfType t "URL" `sublist_of`
     filter (λ n, hasType "URL" n = true) (allNodes t)) ∧
  (unnested "URL" t →
   collectAttachments t =
   (urls ← mapM urlText (filter (λ n, hasType "URL" n = true) (allNodes t));
    Some (filter (λ url, isLocal url = true) urls))) ∧
  (∀ l, collectAttachments t = Some l →
     ∃ urls, mapM urlText (collectNodesOfType t "URL") = Some urls ∧
             l = filter (λ url, isLocal url = true) urls ∧
             ∀ u, u ∈ l ↔ u ∈ urls ∧ Js.includes "://" u = false) ∧
  (pageText s !! nm = Some txt →
   cleanMarkdown (parseMarkdown txt) publishConfig publishedPages =
     Some (mdTree', publishMd) →
   let r := generatePage parseMarkdown renderMarkdownToHtml mimeType clock
              (JStr nm) htmlPath mdPath publishedPages publishConfig destDir
              template s in
   (collectAttachments mdTree' = None → r = (None, s)) ∧
   ∀ l, collectAttachments mdTree' = Some l →
     r.1 = (λ _, tt) <$> template {| pageName := JStr nm;
                                     config := publishConfig;
                                     body := renderMarkdownToHtml mdTree' |} ∧
     (∀ a, a ∈ l → is_Some (attachments s !! a) →
           is_Some (attachments r.2 !! (destDir ++ "/" ++ a))) ∧
     (∀ a x, a ∈ l → attachments s !! a = Some x →
             (∀ b, b ∈ l → a ≠ destDir ++ "/" ++ b) →
             destDir ++ "/" ++ a ≠ mdPath → destDir ++ "/" ++ a ≠ htmlPath →
             data <$> attachments r.2 !! (destDir ++ "/" ++ a) =
             Some (data x)) ∧
     (∀ p, (∀ a, a ∈ l → p ≠ destDir ++ "/" ++ a) →
           p ≠ mdPath → p ≠ htmlPath →
           attachments r.2 !! p = attachments s !! p) ∧
     (∀ u, Js.includes "://" u = true →
           (u ∉ l) ∧
           (destDir ++ "/" ++ u ≠ mdPath → destDir ++ "/" ++ u ≠ htmlPath →
            attachments r.2 !! (destDir ++ "/" ++ u) =
            attachments s !! (destDir ++ "/" ++ u)))).
Proof.
  split; [apply collectNodesMatching_sublist|]. split.
  { intros Hu. unfold collectAttachments.
    by rewrite collectNodesOfType_allNodes. }
  split.
  { intros l Hl. unfold collectAttachments in Hl.
    destruct (mapM urlText _) as [urls|]; [|discriminate].
    cbn in Hl. injection Hl as <-. exists urls.
    split; [done|]. split; [done|]. intros u.
    rewrite list_elem_of_filter. unfold isLocal. rewrite negb_true_iff.
    tauto. }
  intros Hpage Hclean r. split.
  { intros Hnone. unfold r, generatePage.
    rewrite bind_run. cbn [readPage fst snd]. rewrite Hpage.
    rewrite bind_run, Hclean. cbn [liftOption ret fst snd].
    by rewrite bind_run, Hnone. }
  intros l Hl.
  assert (∀ u, u ∈ l → Js.includes "://" u = false) as Hlocal.
  { unfold collectAttachments in Hl.
    destruct (mapM urlText _) as [urls|]; [|discriminate].
    cbn in Hl. injection Hl as <-. intros u Hu.
    by apply filter_isLocal in Hu as [_ ?]. }
  destruct (generatePage_after_copies parseMarkdown renderMarkdownToHtml
              mimeType clock nm htmlPath mdPath publishedPages
              publishConfig destDir template s txt mdTree' publishMd l
              Hpage Hclean Hl) as (Hout & Hgrow & Hrest).
  fold r in Hout, Hgrow, Hrest.
  destruct (copyAttachments_run mimeType clock destDir l s)
    as (_ & _ & _ & _ & Hcopied & Hframe & Hdata).
  split; [exact Hout|]. split; [|split; [|split]].
  - intros a Ha Hs. by apply Hgrow, Hcopied.
  - intros a x Ha Hx Hne Hm Hh. rewrite Hrest by done. by apply Hdata.
  - intros p Hp Hm Hh. rewrite Hrest by done. by apply Hframe.
  - intros u Hu.
    assert (u ∉ l) as Hnot.
    { intros Hin. apply Hlocal in Hin. congruence. }
    split; [exact Hnot|]. intros Hm Hh. rewrite Hrest by done.
    apply Hframe. intros a Ha Heq. apply copy_path_inj in Heq. congruence.
Qed.

(** C5, as the code has it: [generatePage] holds one tree, which
    [cleanMarkdown] rewrites in place; the HTML it writes is the template
    applied to the rendering of that rewritten tree, the tree whose text is
    the markdown mirror. *)
Theorem generatePage_renders_rewritten_tree
    (nm htmlPath mdPath : string) (publishedPages : list JsVal)
    (publishConfig : PublishConfig) (destDir : string)
    (template : TemplateData → option string) (s : Space)
    (txt : string) (mdTree' : ParseTree) (publishMd : string)
    (l : list string) (html : string) :
  pageText s !! nm = Some txt →
  cleanMarkdown (parseMarkdown txt) publishConfig publishedPages =
    Some (mdTree', publishMd) →
  collectAttachments mdTree' = Some l →
  template {| pageName := JStr nm; config := publishConfig;
              body := renderMarkdownToHtml mdTree' |} = Some html →
  let r := generatePage parseMarkdown renderMarkdownToHtml mimeType clock
             (JStr nm) htmlPath mdPath publishedPages publishConfig destDir
             template s in
  replaceNodesMatching (cleanFn publishConfig publishedPages)
    (parseMarkdown txt) = Some mdTree' ∧
  r.1 = Some tt ∧
  data <$> attachments r.2 !! htmlPath = Some html ∧
  (mdPath ≠ htmlPath →
   data <$> attachments r.2 !! mdPath = Some publishMd).
Proof.
  intros Hpage Hclean Hcollect Htpl r. split.
  { unfold cleanMarkdown in Hclean.
    destruct (replaceNodesMatching _ _) as [t'|]; [|discriminate].
    cbn in Hclean. destruct (renderToText t'); [|discriminate].
    cbn in Hclean. by injection Hclean as -> _. }
  unfold r.
  rewrite (generatePage_run _ _ _ _ _ _ _ _ _ _ _ _ _ _ _ _ Hpage Hclean Hcollect).
  cbn zeta. rewrite Htpl, !writeAttachment_run. cbn [fst snd attachments].
  split; [reflexivity|]. split.
  - by rewrite lookup_insert_eq.
  - intros Hne. rewrite lookup_insert_ne by done. by rewrite lookup_insert_eq.
Qed.

End GenerateClaims.

Lemma collectAttachments_local_urls_copied_witness :
  let r := generatePage Sample.parse Sample.render Sample.mime 0 (JStr "P")
             "_public/P/index.html" "_public/P.md" [JStr "Home"]
             defaultPublishConfig "_public" Sample.bodyOnly Sample.space in
  collectAttachments Sample.docCleaned = Some ["image.png"] ∧
  r.1 = Some tt ∧
  data <$> attachments r.2 !! "_public/image.png" = Some "PNG" ∧
  attachments r.2 !! "_public/https://example.com/x.png" = None.
Proof.
  intros r.
  destruct (collectAttachments_local_urls_copied Sample.parse Sample.render
              Sample.mime 0 Sample.docCleaned "P" "_public/P/index.html"
              "_public/P.md" [JStr "Home"] defaultPublishConfig "_public"
              Sample.bodyOnly Sample.space Sample.pageSource Sample.docCleaned
              "See _C_ and [[Home@12]]image.pnghttps://example.com/x.png")
    as (_ & Hall & _ & Hgen).
  assert (unnested "URL" Sample.docCleaned) as Hu.
  { unfold unnested. apply (bool_decide_unpack _). vm_compute. exact I. }
  assert (collectAttachments Sample.docCleaned = Some ["image.png"]) as Hl.
  { rewrite (Hall Hu). reflexivity. }
  destruct (Hgen eq_refl eq_refl) as [_ Hcopy].
  destruct (Hcopy ["image.png"] Hl) as (Hok & _ & Hdata & _ & Hremote).
  split; [exact Hl|]. split; [exact Hok|]. split.
  - refine (Hdata "image.png" _ _ eq_refl _ _ _); try discriminate.
    apply list_elem_of_singleton. reflexivity.
  - refine (eq_trans (proj2 (Hremote "https://example.com/x.png" eq_refl) _ _)
              eq_refl); discriminate.
Defined.

(** C7 as the spec states it fails in two ways. A URL node inside a URL
    node is a URL node of the tree with a text free of "://", and it is not
    collected; and a collected attachment that the store cannot read is not
    copied. *)
Lemma collectAttachments_misses_nested_and_unreadable :
  let inner := Sample.url "b.png" in
  let r := generatePage Sample.parse Sample.render Sample.mime 0 (JStr "P")
             "_public/P/index.html" "_public/P.md" [JStr "Home"]
             defaultPublishConfig "_public" Sample.bodyOnly Sample2.bare in
  (inner ∈ allNodes Sample2.nestedUrl ∧ hasType "URL" inner = true ∧
   urlText inner = Some "b.png" ∧ Js.includes "://" "b.png" = false ∧
   collectAttachments Sample2.nestedUrl = Some ["a.png"] ∧
   "b.png" ∉ ["a.png"]) ∧
  (cleanMarkdown (Sample.parse Sample.pageSource) defaultPublishConfig
     [JStr "Home"] =
     Some (Sample.docCleaned,
           "See _C_ and [[Home@12]]image.pnghttps://example.com/x.png") ∧
   collectAttachments Sample.docCleaned = Some ["image.png"] ∧
   r.1 = Some tt ∧
   attachments r.2 !! "_public/image.png" = None).
Proof.
  intros inner r. split.
  - split; [|split; [|split; [|split; [|split]]]]; try reflexivity.
    + cbn. do 3 (apply elem_of_cons; right). apply elem_of_cons. by left.
    + intros H. apply list_elem_of_singleton in H. discriminate H.
  - split; [reflexivity|]. split; [reflexivity|].
    split; vm_compute; reflexivity.
Qed.

Lemma generatePage_renders_rewritten_tree_witness :
  let r := generatePage Sample.parse Sample.render Sample.mime 0 (JStr "P")
             "_public/P/index.html" "_public/P.md" [JStr "Home"]
             defaultPublishConfig "_public" Sample.bodyOnly Sample.space in
  r.1 = Some tt ∧
  data <$> attachments r.2 !! "_public/P/index.html" =
    Some "See _C_ and [[Home@12]]image.pnghttps://example.com/x.png" ∧
  data <$> attachments r.2 !! "_public/P.md" =
    Some "See _C_ and [[Home@12]]image.pnghttps://example.com/x.png".
Proof.
  intros r.
  destruct (generatePage_renders_rewritten_tree Sample.parse Sample.render
              Sample.mime 0 "P" "_public/P/index.html" "_public/P.md"
              [JStr "Home"] defaultPublishConfig "_public" Sample.bodyOnly
              Sample.space Sample.pageSource Sample.docCleaned
              "See _C_ and [[Home@12]]image.pnghttps://example.com/x.png"
              ["image.png"]
              "See _C_ and [[Home@12]]image.pnghttps://example.com/x.png"
              eq_refl eq_refl eq_refl eq_refl) as (_ & Hok & Hhtml & Hmd).
  split; [exact Hok|]. split; [exact Hhtml|].
  apply Hmd. discriminate.
Defined.

(** C5 as the spec states it fails: the page of [Sample.space] parses to a
    tree with a dead link, a comment and a hashtag; the HTML written for it
    is not the template applied to the rendering of that parsed tree. *)
Lemma generatePage_html_not_of_parsed_tree :
  let r := generatePage Sample.parse Sample.render Sample.mime 0 (JStr "P")
             "_public/P/index.html" "_public/P.md" [JStr "Home"]
             defaultPublishConfig "_public" Sample.bodyOnly Sample.space in
  let ofParsedTree :=
    Sample.bodyOnly {| pageName := JStr "P"; config := defaultPublishConfig;
                       body := Sample.render (Sample.parse Sample.pageSource) |} in
  r.1 = Some tt ∧
  data <$> attachments r.2 !! "_public/P/index.html" =
    Some "See _C_ and [[Home@12]]image.pnghttps://example.com/x.png" ∧
  ofParsedTree =
    Some "See [[C]] and [[Home@12]]%%todo%%#draftimage.pnghttps://example.com/x.png" ∧
  data <$> attachments r.2 !! "_public/P/index.html" ≠ ofParsedTree.
Proof.
  split; [vm_compute; reflexivity|].
  split; [vm_compute; reflexivity|].
  split; [vm_compute; reflexivity|].
  vm_compute. intros [=].
Qed.

Lemma wrapShare_name page : Page.name (wrapShare page) = Page.name page.
Proof.
  unfold wrapShare. destruct (Page.name page) eqn:Hn; try done.
  destruct (Page.share page) as [v|]; [|done]. by destruct (truthy v).
Qed.

Lemma wrapShare_tags page : Page.tags (wrapShare page) = Page.tags page.
Proof.
  unfold wrapShare. destruct (Page.name page) eqn:Hn; try done.
  destruct (Page.share page) as [v|]; [|done]. by destruct (truthy v).
Qed.

Lemma wrapShare_share page :
  Page.share (wrapShare page) =
  match Page.name page, Page.share page with
  | JStr _, ShareScalar v =>
      if truthy v then ShareArray [v] else ShareScalar v
  | _, sh => sh
  end.
Proof.
  unfold wrapShare. destruct (Page.name page) eqn:Hn; try done.
  destruct (Page.share page) as [v|] eqn:Hs; [|done].
  destruct (truthy v); done.
Qed.

Lemma selectPages_all publishConfig recs :
  flag (Config.publishAll publishConfig) = true →
  selectPages publishConfig recs = (newSet (Page.name <$> recs), recs).
Proof.
  intros Hall. unfold selectPages. rewrite Hall.
  by rewrite allPageMap_names, allPageMap_keys, newSet_idem.
Qed.

Lemma selectPages_rules publishConfig recs :
  flag (Config.publishAll publishConfig) = false →
  selectPages publishConfig recs =
  foldl (selectStep publishConfig) ([], recs) (mapValues (allPageMap recs)).
Proof. intros Hall. unfold selectPages. by rewrite Hall. Qed.

(** With unique names every position of the listing is in the map. *)
Lemma allPageMap_values_unique recs a page :
  NoDup (Page.name <$> recs) → recs !! a = Some page →
  a ∈ mapValues (allPageMap recs).
Proof.
  intros Hnd Ha.
  destruct (allPageMap_covers recs page) as (a' & q & Ha' & Hq & Hn).
  { apply list_elem_of_lookup. eauto. }
  assert (a' = a) as <-; [|done].
  apply (NoDup_lookup (Page.name <$> recs) a' a (Page.name page)); [done|..].
  - by rewrite list_lookup_fmap, Hq, <- Hn.
  - by rewrite list_lookup_fmap, Ha.
Qed.

(** C3: with publishAll true the published set is the set of the names of
    the catalog: it has no repetition, its members are the names of the
    pages of the name-deduplicated catalog, which are the names of the
    listing, and it is the same for any other configuration with publishAll
    true and any other listing with the same names, whatever the tags,
    prefixes and share markers. *)
Theorem publishAll_selects_every_name
    (publishConfig : PublishConfig) (recs : list Page.t) :
  Config.publishAll publishConfig = Some true →
  let published := (selectPages publishConfig recs).1 in
  published = newSet (Page.name <$> recs) ∧
  NoDup published ∧
  (∀ x, x ∈ published ↔
        ∃ a page, a ∈ mapValues (allPageMap recs) ∧ recs !! a = Some page ∧
                  Page.name page = x) ∧
  (∀ x, x ∈ published ↔ ∃ page, page ∈ recs ∧ Page.name page = x) ∧
  (∀ publishConfig' recs',
     Config.publishAll publishConfig' = Some true →
     Page.name <$> recs' = Page.name <$> recs →
     (selectPages publishConfig' recs').1 = published).
Proof.
  intros Hall published.
  assert (published = newSet (Page.name <$> recs)) as Heq.
  { unfold published. rewrite selectPages_all; [done|]. by rewrite Hall. }
  assert (∀ x, x ∈ published ↔ ∃ page, page ∈ recs ∧ Page.name page = x)
    as Hnames.
  { intros x. rewrite Heq, newSet_elem, list_elem_of_fmap. split.
    - intros (page & -> & Hp). by exists page.
    - intros (page & Hp & <-). by exists page. }
  split; [exact Heq|]. split; [rewrite Heq; apply newSet_NoDup|].
  split; [|split; [exact Hnames|]].
  - intros x. rewrite Hnames. split.
    + intros (page & Hp & <-). destruct (allPageMap_covers recs page Hp)
        as (a & q & ? & ? & ?). by exists a, q.
    + intros (a & page & _ & Hp & <-). exists page. split; [|done].
      apply list_elem_of_lookup. eauto.
  - intros publishConfig' recs' Hall' Hsame.
    rewrite selectPages_all by (by rewrite Hall'). cbn. by rewrite Hsame, Heq.
Qed.

Lemma publishAll_selects_every_name_witness :
  let recs := [ {| Page.name := JStr "A"; Page.tags := Some [];
                   Page.share := ShareScalar JUndefined |};
                {| Page.name := JStr "B"; Page.tags := Some ["blog"];
                   Page.share := ShareArray [JStr "pub"] |};
                {| Page.name := JStr "A"; Page.tags := None;
                   Page.share := ShareScalar (JStr "x") |} ] in
  let publishConfig := spread defaultPublishConfig
       {| Config.title := None; Config.indexPage := None;
          Config.removeHashtags := None; Config.publishAll := Some true;
          Config.tags := Some ["none"]; Config.prefixes := None;
          Config.template := None; Config.generateIndexJson := None |} in
  Config.publishAll publishConfig = Some true ∧
  (selectPages publishConfig recs).1 = [JStr "A"; JStr "B"].
Proof.
  intros recs publishConfig. split; [reflexivity|].
  exact (eq_trans
           (proj1 (publishAll_selects_every_name publishConfig recs eq_refl))
           eq_refl).
Defined.

(** C6: a page of the name-deduplicated catalog whose name is a string and
    whose share marker is the scalar string "pub" is in the published set:
    the scalar is wrapped into a one-element array, in the page record
    itself, and that array includes "pub". *)
Theorem scalar_pub_marker_selects
    (publishConfig : PublishConfig) (recs : list Page.t)
    (a : nat) (page : Page.t) (nm : string) :
  a ∈ mapValues (allPageMap recs) →
  recs !! a = Some page →
  Page.name page = JStr nm →
  Page.share page = ShareScalar (JStr "pub") →
  JStr nm ∈ (selectPages publishConfig recs).1 ∧
  (flag (Config.publishAll publishConfig) = false →
   (selectPages publishConfig recs).2 !! a =
   Some (Page.setShare page (ShareArray [JStr "pub"]))) ∧
  arrIncludes [JStr "pub"] (JStr "pub") = true.
Proof.
  intros Ha Hpage Hnm Hsh. split; [|split; [|reflexivity]].
  - destruct (flag (Config.publishAll publishConfig)) eqn:Hall.
    + rewrite selectPages_all by done. cbn.
      apply newSet_elem, list_elem_of_fmap. exists page. split; [done|].
      apply list_elem_of_lookup. eauto.
    + rewrite selectPages_rules by done.
      destruct (selectLoop_run publishConfig _
                  (allPageMap_values_NoDup recs) [] recs) as (_ & Hset & _).
      apply Hset. right. exists a, page. split; [done|]. split; [done|].
      split; [|done]. unfold selects, shareRule. rewrite Hnm, Hsh.
      cbn [truthy String.eqb negb andb].
      assert (arrIncludes [JStr "pub"] (JStr "pub") = true) as ->
        by reflexivity.
      by rewrite !orb_true_r.
  - intros Hall. rewrite selectPages_rules by done.
    destruct (selectLoop_run publishConfig _
                (allPageMap_values_NoDup recs) [] recs) as (Hrecs & _).
    rewrite Hrecs, decide_True by done. rewrite Hpage. cbn.
    unfold wrapShare. by rewrite Hnm, Hsh.
Qed.

Lemma scalar_pub_marker_selects_witness :
  let recs := [ {| Page.name := JStr "Notes"; Page.tags := None;
                   Page.share := ShareScalar JUndefined |};
                {| Page.name := JStr "Blog/Hello"; Page.tags := None;
                   Page.share := ShareScalar (JStr "pub") |} ] in
  1 ∈ mapValues (allPageMap recs) ∧
  JStr "Blog/Hello" ∈ (selectPages defaultPublishConfig recs).1 ∧
  (selectPages defaultPublishConfig recs).1 = [JStr "Blog/Hello"].
Proof.
  intros recs.
  assert (1 ∈ mapValues (allPageMap recs)) as H1.
  { apply (bool_decide_unpack _). vm_compute. exact I. }
  split; [exact H1|]. split; [|reflexivity].
  exact (proj1 (scalar_pub_marker_selects defaultPublishConfig recs 1
                  {| Page.name := JStr "Blog/Hello"; Page.tags := None;
                     Page.share := ShareScalar (JStr "pub") |}
                  "Blog/Hello" H1 eq_refl eq_refl eq_refl)).
Defined.

(** C9 as the spec states it fails: the selector wraps the scalar share
    marker of a page record in place. *)
Lemma selectPages_reassigns_share :
  let page := {| Page.name := JStr "Blog/Hello"; Page.tags := None;
                 Page.share := ShareScalar (JStr "pub") |} in
  (selectPages defaultPublishConfig [page]).2 ≠ [page] ∧
  Page.share <$> (selectPages defaultPublishConfig [page]).2 !! 0 =
  Some (ShareArray [JStr "pub"]).
Proof. split; [vm_compute; intros [=]|reflexivity]. Qed.

Section RecordClaims.

Variable parseMarkdown : string → ParseTree.
Variable renderMarkdownToHtml : ParseTree → string.
Variable mimeType : string → string.
Variable clock : Z.
Variable codeBlock : string → option string.
Variable templateAsset : option string.
Variable compile : string → TemplateData → option string.

(** C9, as the code has it: the selector keeps the listing's length and
    every record's name and tags; the record at a position is reassigned
    only its share marker, and only when publishAll is false, the position
    is in the name-deduplicated catalog, the name is a string and the
    marker is a truthy scalar, which becomes the one-element array of that
    scalar. The stages that follow the selection are run on the published
    names: the records are not handed on to them. *)
Theorem selectPages_only_wraps_share
    (publishConfig : PublishConfig) (recs : list Page.t)
    (i : nat) (page : Page.t) :
  recs !! i = Some page →
  let recs' := (selectPages publishConfig recs).2 in
  (length recs' = length recs ∧
   ∃ page',
     recs' !! i = Some page' ∧
     Page.name page' = Page.name page ∧
     Page.tags page' = Page.tags page ∧
     Page.share page' =
       (if flag (Config.publishAll publishConfig) then Page.share page
        else if bool_decide (i ∈ mapValues (allPageMap recs)) then
          match Page.name page, Page.share page with
          | JStr _, ShareScalar v =>
              if truthy v then ShareArray [v] else ShareScalar v
          | _, sh => sh
          end
        else Page.share page)) ∧
  ∀ s, publishWith parseMarkdown renderMarkdownToHtml mimeType clock
         codeBlock templateAsset compile publishConfig s =
       (let* allPages := listPages in
        cleanDestDir "_public" ;;
        publishSelected parseMarkdown renderMarkdownToHtml mimeType clock
          codeBlock templateAsset compile publishConfig
          (selectPages publishConfig allPages).1) s.
Proof.
  intros Hpage recs'. split.
  - unfold recs'.
    destruct (flag (Config.publishAll publishConfig)) eqn:Hall.
    + rewrite selectPages_all by done. cbn. split; [done|]. by exists page.
    + rewrite selectPages_rules by done.
      destruct (selectLoop_run publishConfig _
                  (allPageMap_values_NoDup recs) [] recs)
        as (Hrecs & _ & _ & Hlen).
      split; [exact Hlen|]. rewrite Hrecs, Hpage.
      case_bool_decide as Hi.
      * rewrite decide_True by done. exists (wrapShare page).
        split; [done|]. split; [apply wrapShare_name|].
        split; [apply wrapShare_tags|apply wrapShare_share].
      * rewrite decide_False by done. by exists page.
  - reflexivity.
Qed.

End RecordClaims.

Lemma selectPages_only_wraps_share_witness :
  let recs := [ {| Page.name := JNum 42; Page.tags := Some ["blog"];
                   Page.share := ShareScalar (JStr "pub") |};
                {| Page.name := JStr "Blog/Hello"; Page.tags := None;
                   Page.share := ShareScalar (JStr "pub") |} ] in
  (selectPages defaultPublishConfig recs).2 =
  [ {| Page.name := JNum 42; Page.tags := Some ["blog"];
       Page.share := ShareScalar (JStr "pub") |};
    {| Page.name := JStr "Blog/Hello"; Page.tags := None;
       Page.share := ShareArray [JStr "pub"] |} ] ∧
  length (selectPages defaultPublishConfig recs).2 = 2.
Proof.
  intros recs. split; [reflexivity|].
  exact (proj1 (proj1 (selectPages_only_wraps_share Sample.parse
                  Sample.render Sample.mime 0 Sample.noCodeBlock (Some "")
                  Sample.compile defaultPublishConfig recs 1
                  {| Page.name := JStr "Blog/Hello"; Page.tags := None;
                     Page.share := ShareScalar (JStr "pub") |} eq_refl))).
Defined.

(** C4 fails on the code: the tag rule runs before the check of the name,
    so a catalog entry whose name is the number 42 and whose tags include a
    configured tag is put into the published set; only the prefix rule and
    the share-marker rule are skipped for it. *)
Theorem tag_rule_publishes_entry_without_string_name :
  let publishConfig :=
    {| Config.title := None; Config.indexPage := None;
       Config.removeHashtags := Some true; Config.publishAll := None;
       Config.tags := Some ["blog"]; Config.prefixes := Some [""];
       Config.template := None; Config.generateIndexJson := Some true |} in
  let entry := {| Page.name := JNum 42; Page.tags := Some ["blog"];
                  Page.share := ShareScalar (JStr "pub") |} in
  isString (Page.name entry) = false ∧
  (selectPages publishConfig [entry]).1 = [JNum 42] ∧
  (selectPages publishConfig
     [ {| Page.name := JNum 42; Page.tags := None;
          Page.share := ShareScalar (JStr "pub") |} ]).1 = [].
Proof. repeat split. Qed.

Section DriverClaims.

Variable parseMarkdown : string → ParseTree.
Variable renderMarkdownToHtml : ParseTree → string.
Variable mimeType : string → string.
Variable clock : Z.
Variable codeBlock : string → option string.
Variable templateAsset : option string.
Variable compile : string → TemplateData → option string.


End DriverClaims.


(** * Further properties *)

(** ** What a run writes *)

Lemma string_prefix_app (d x : string) : String.prefix d (d ++ x) = true.
Proof.
  induction d as [|c d IH]; [by destruct x|].
  change (String c d ++ x) with (String c (d ++ x)).
  cbn [String.prefix]. by destruct (ascii_dec c c).
Qed.

Section WriteFacts.

Variable mimeType : string → string.
Variable clock : Z.
Variable P : string → Prop.

Let R := writesOnly mimeType clock P.

Lemma writesOnly_refl s : R s s.
Proof. split; [done|]. split; [done|]. by left. Qed.

Lemma writesOnly_trans s1 s2 s3 : R s1 s2 → R s2 s3 → R s1 s3.
Proof.
  intros (Hc1 & Hp1 & H1) (Hc2 & Hp2 & H2).
  split; [congruence|]. split; [congruence|]. intros p.
  destruct (H2 p) as [Heq|Hw]; [|by right].
  rewrite Heq. apply H1.
Qed.

Lemma keeps_ret {A} (x : A) : keeps R (ret x).
Proof. intros s. apply writesOnly_refl. Qed.

Lemma keeps_throw {A} : keeps R (@throw A).
Proof. intros s. apply writesOnly_refl. Qed.

Lemma keeps_liftOption {A} (o : option A) : keeps R (liftOption o).
Proof. destruct o; [apply keeps_ret|apply keeps_throw]. Qed.

Lemma keeps_bind {A B} (m : M A) (k : A → M B) :
  keeps R m → (∀ x, keeps R (k x)) → keeps R (bind m k).
Proof.
  intros Hm Hk s. rewrite bind_run. specialize (Hm s).
  destruct (m s).1 as [x|]; [|exact Hm].
  eapply writesOnly_trans; [exact Hm|apply Hk].
Qed.

Lemma keeps_tryCatch (m : M unit) : keeps R m → keeps R (tryCatch m).
Proof. intros Hm s. apply Hm. Qed.

Lemma keeps_forEach {A} (l : list A) (body : A → M unit) :
  (∀ x, keeps R (body x)) → keeps R (forEach l body).
Proof.
  intros Hb. induction l as [|x l IH]; [apply keeps_ret|].
  cbn [forEach]. apply keeps_bind; [apply Hb|]. intros _. exact IH.
Qed.

Lemma keeps_readPage name : keeps R (readPage name).
Proof. intros s. destruct name; apply writesOnly_refl. Qed.

Lemma keeps_readAttachment name : keeps R (readAttachment name).
Proof. intros s. apply writesOnly_refl. Qed.

Lemma keeps_listAttachments : keeps R listAttachments.
Proof. intros s. apply writesOnly_refl. Qed.

Lemma keeps_readCodeBlockPage codeBlock name :
  keeps R (readCodeBlockPage codeBlock name).
Proof.
  apply keeps_bind; [apply keeps_readPage|]. intros x. apply keeps_liftOption.
Qed.

Lemma keeps_writeAttachment name bytes :
  P name → keeps R (writeAttachment mimeType clock name bytes).
Proof.
  intros HP s. split; [done|]. split; [done|]. intros p. cbn.
  destruct (decide (p = name)) as [->|Hne].
  - right. split; [done|]. exists bytes. by rewrite lookup_insert_eq.
  - left. by rewrite lookup_insert_ne.
Qed.

Lemma keeps_copyAttachment destDir a :
  P (destDir ++ "/" ++ a) → keeps R (copyAttachment mimeType clock destDir a).
Proof.
  intros HP. apply keeps_tryCatch, keeps_bind; [apply keeps_readAttachment|].
  intros x. by apply keeps_writeAttachment.
Qed.

Lemma keeps_generatePage parseMarkdown renderMarkdownToHtml pageName htmlPath
    mdPath publishedPages publishConfig destDir template :
  P htmlPath → P mdPath → (∀ a, P (destDir ++ "/" ++ a)) →
  keeps R (generatePage parseMarkdown renderMarkdownToHtml mimeType clock
             pageName htmlPath mdPath publishedPages publishConfig destDir
             template).
Proof.
  intros Hh Hm Hd. unfold generatePage.
  apply keeps_bind; [apply keeps_readPage|]. intros txt.
  apply keeps_bind; [apply keeps_liftOption|]. intros cleaned.
  apply keeps_bind; [apply keeps_liftOption|]. intros atts.
  apply keeps_bind.
  { apply keeps_forEach. intros a. by apply keeps_copyAttachment. }
  intros _. apply keeps_bind; [by apply keeps_writeAttachment|].
  intros _. apply keeps_bind; [apply keeps_liftOption|].
  intros html. by apply keeps_writeAttachment.
Qed.

Lemma keeps_writeIndexJson destDir :
  P (destDir ++ "/index.json") → keeps R (writeIndexJson mimeType clock destDir).
Proof.
  intros HP. apply keeps_bind; [apply keeps_listAttachments|].
  intros listing. by apply keeps_writeAttachment.
Qed.

End WriteFacts.

Section RunFacts.

Variable parseMarkdown : string → ParseTree.
Variable renderMarkdownToHtml : ParseTree → string.
Variable mimeType : string → string.
Variable clock : Z.
Variable parseYaml : string → option PublishConfig.
Variable codeBlock : string → option string.
Variable templateAsset : option string.
Variable compile : string → TemplateData → option string.

Let underRoot (p : string) : Prop := String.prefix "_public" p = true.

(** A run is the clean-up followed by writes under the output root. *)
Lemma publishWith_stages publishConfig s :
  writesOnly mimeType clock underRoot (cleanDestDir "_public" s).2
    (publishWith parseMarkdown renderMarkdownToHtml mimeType clock codeBlock
       templateAsset compile publishConfig s).2.
Proof.
  unfold publishWith. rewrite bind_run. cbn [listPages fst snd].
  rewrite bind_run.
  destruct (cleanDestDir_run "_public" s) as (-> & _).
  match goal with
  | |- writesOnly _ _ _ ?s1 (?m ?s1).2 =>
      enough (keeps (writesOnly mimeType clock underRoot) m) as H
        by exact (H s1)
  end.
  assert (∀ x, underRoot ("_public" ++ "/" ++ x)) as Hroot.
  { intros x. apply string_prefix_app. }
  apply keeps_bind; [apply keeps_liftOption|]. intros pageTemplate.
  apply keeps_bind.
  { destruct (nonEmpty _); [apply keeps_readCodeBlockPage|apply keeps_ret]. }
  intros pageTemplate'. apply keeps_bind.
  { apply keeps_forEach. intros page.
    apply keeps_generatePage; [apply Hroot..]. }
  intros _. apply keeps_bind.
  { destruct (nonEmpty _); [|apply keeps_ret].
    apply keeps_generatePage; [apply (Hroot "index.html")
                              |apply (Hroot "index.md")|apply Hroot]. }
  intros _. destruct (flag _); [|apply keeps_ret].
  apply keeps_writeIndexJson. apply (Hroot "index.json").
Qed.

Lemma loadPublishConfig_run s :
  loadPublishConfig parseYaml s =
  (Some match pageText s !! "PUBLISH" ≫= parseYaml with
        | Some loaded => spread defaultPublishConfig loaded
        | None => defaultPublishConfig
        end, s).
Proof.
  unfold loadPublishConfig, attempt, readYamlPage.
  rewrite bind_run. cbn [fst snd]. rewrite !bind_run. cbn [readPage fst snd].
  destruct (pageText s !! "PUBLISH") as [txt|]; cbn; [|done].
  by destruct (parseYaml txt).
Qed.

End RunFacts.

Lemma bind_success {A B} (m : M A) (k : A → M B) s y :
  (bind m k s).1 = Some y →
  ∃ x, (m s).1 = Some x ∧ bind m k s = k x (m s).2.
Proof.
  rewrite bind_run. destruct (m s).1 as [x|]; [|discriminate].
  intros _. by exists x.
Qed.

Section OutputFacts.

Variable parseMarkdown : string → ParseTree.
Variable renderMarkdownToHtml : ParseTree → string.
Variable mimeType : string → string.
Variable clock : Z.
Variable P : string → Prop.

Let R := writesOnly mimeType clock P.




End OutputFacts.

Section RunClaims.

Variable parseMarkdown : string → ParseTree.
Variable renderMarkdownToHtml : ParseTree → string.
Variable mimeType : string → string.
Variable clock : Z.
Variable parseYaml : string → option PublishConfig.
Variable codeBlock : string → option string.
Variable templateAsset : option string.
Variable compile : string → TemplateData → option string.

Lemma publishAll_run s :
  publishAll parseMarkdown renderMarkdownToHtml mimeType clock parseYaml
    codeBlock templateAsset compile s =
  publishWith parseMarkdown renderMarkdownToHtml mimeType clock codeBlock
    templateAsset compile
    match pageText s !! "PUBLISH" ≫= parseYaml with
    | Some loaded => spread defaultPublishConfig loaded
    | None => defaultPublishConfig
    end s.
Proof.
  unfold publishAll. rewrite bind_run, loadPublishConfig_run. reflexivity.
Qed.

Lemma publishAll_effect (s : Space) :
  let r := publishAll parseMarkdown renderMarkdownToHtml mimeType clock
             parseYaml codeBlock templateAsset compile s in
  catalog r.2 = catalog s ∧
  pageText r.2 = pageText s ∧
  (∀ p, String.prefix "_public" p = false →
        attachments r.2 !! p = attachments s !! p) ∧
  (∀ p x, String.prefix "_public" p = true →
          attachments r.2 !! p = Some x →
          ∃ bytes, x = stored mimeType clock bytes p).
Proof.
  cbn zeta. rewrite publishAll_run.
  set (publishConfig := match _ with Some _ => _ | None => _ end).
  pose proof (publishWith_stages parseMarkdown renderMarkdownToHtml mimeType
                clock codeBlock templateAsset compile publishConfig s)
    as (Hc & Hp & Ha).
  destruct (cleanDestDir_run "_public" s) as (_ & Hc1 & Hp1 & Ha1).
  split; [congruence|]. split; [congruence|]. split.
  - intros p Hp0. destruct (Ha p) as [->|(Hroot & _)].
    + by rewrite Ha1, Hp0.
    + congruence.
  - intros p x Hp0 Hx. destruct (Ha p) as [Heq|(_ & b & Hb)].
    + rewrite Heq, Ha1, Hp0 in Hx. discriminate.
    + exists b. congruence.
Qed.

(** X1: whether it completes or throws, a run of publishAll leaves the
    catalog and the page texts as they were, leaves every attachment whose
    name does not start with "_public" as it was, and leaves under a name
    that starts with "_public" only what the run itself wrote: no output of
    an earlier run remains. *)
Theorem publishAll_touches_only_output_root (s : Space) :
  let r := publishAll parseMarkdown renderMarkdownToHtml mimeType clock
             parseYaml codeBlock templateAsset compile s in
  catalog r.2 = catalog s ∧
  pageText r.2 = pageText s ∧
  (∀ p, String.prefix "_public" p = false →
        attachments r.2 !! p = attachments s !! p) ∧
  (∀ p x, String.prefix "_public" p = true →
          attachments r.2 !! p = Some x →
          ∃ bytes, x = stored mimeType clock bytes p).
Proof. exact (publishAll_effect s). Qed.


End RunClaims.

(** ** The rules of the selector *)

Lemma existsb_elem {A} (f : A → bool) (l : list A) :
  existsb f l = true ↔ ∃ x, x ∈ l ∧ f x = true.
Proof.
  rewrite existsb_exists. split; intros (x & Hx & Hf); exists x;
    (split; [by apply list_elem_of_In|done]).
Qed.

Lemma tagRule_byTag publishConfig page :
  tagRule publishConfig page = true ↔ byTag publishConfig page.
Proof.
  unfold tagRule, byTag. split.
  - destruct (Config.tags publishConfig) as [ctags|]; [|done].
    destruct (Page.tags page) as [ptags|]; [|done].
    intros (tag & Hp & Hc%bool_decide_eq_true)%existsb_elem.
    by exists ctags, ptags, tag.
  - intros (ctags & ptags & tag & -> & -> & Hp & Hc).
    apply existsb_elem. exists tag. split; [done|].
    by apply bool_decide_eq_true.
Qed.

Lemma prefixRule_byPrefix publishConfig nm :
  prefixRule publishConfig nm = true ↔ byPrefix publishConfig nm.
Proof.
  unfold prefixRule, byPrefix, Js.startsWith. split.
  - destruct (Config.prefixes publishConfig) as [ps|]; [|done].
    intros (prefix & Hp & Hs)%existsb_elem. by exists ps, prefix.
  - intros (ps & prefix & -> & Hp & Hs). apply existsb_elem. by exists prefix.
Qed.

Lemma shareRule_byShare page : shareRule page = true ↔ byShare page.
Proof.
  unfold shareRule, byShare, arrIncludes. split.
  - destruct (Page.share page) as [v|l].
    + intros [_ Hv%bool_decide_eq_true]%andb_true_iff.
      apply list_elem_of_singleton in Hv. left. by rewrite Hv.
    + intros Hl%bool_decide_eq_true. right. by exists l.
  - intros [->|(l & -> & Hl)].
    + reflexivity.
    + by apply bool_decide_eq_true.
Qed.

Lemma selects_spec publishConfig page :
  selects publishConfig page = true ↔
  byTag publishConfig page ∨
  ∃ nm, Page.name page = JStr nm ∧
        (byPrefix publishConfig nm ∨ byShare page).
Proof.
  unfold selects. rewrite orb_true_iff, tagRule_byTag. split.
  - intros [?|H]; [by left|]. right.
    destruct (Page.name page) as [| | | |nm]; try discriminate H.
    exists nm. split; [done|].
    apply orb_true_iff in H as [H|H];
      [left; by apply prefixRule_byPrefix|right; by apply shareRule_byShare].
  - intros [?|(nm & -> & H)]; [by left|]. right.
    apply orb_true_iff. destruct H as [H|H];
      [left; by apply prefixRule_byPrefix|right; by apply shareRule_byShare].
Qed.

(** ** The catalog map keeps the last record of a name *)

Lemma mapSet_elem_iff {V} k (v : V) m e :
  NoDup (m.*1) →
  e ∈ mapSet k v m ↔ e = (k, v) ∨ (e ∈ m ∧ e.1 ≠ k).
Proof.
  induction m as [|[k' v'] m IH]; intros Hnd; cbn [mapSet].
  - rewrite list_elem_of_singleton. split; [by left|].
    intros [?|[H _]]; [done|]. by apply elem_of_nil in H.
  - cbn in Hnd. apply NoDup_cons in Hnd as [Hk' Hnd].
    destruct (decide (k = k')) as [<-|Hne].
    + rewrite !elem_of_cons. split.
      * intros [?|He]; [by left|]. right. split; [by right|].
        intros <-. apply Hk'. apply list_elem_of_fmap. by exists e.
      * intros [?|[[->|He] Hn]]; [by left|done|by right].
    + rewrite !elem_of_cons, (IH Hnd). split.
      * intros [->|[?|[He Hn]]].
        -- right. split; [by left|]. cbn. congruence.
        -- by left.
        -- right. split; [by right|done].
      * intros [?|[[->|He] Hn]]; [right; by left|by left|].
        right. right. done.
Qed.

Lemma allPageMap_snoc recs p :
  allPageMap (recs ++ [p]) =
  mapSet (Page.name p) (length recs) (allPageMap recs).
Proof.
  unfold allPageMap, newMap. rewrite imap_app, foldl_app. cbn.
  by rewrite Nat.add_0_r.
Qed.

Lemma allPageMap_last (recs : list Page.t) (k : JsVal) (a : nat) :
  (k, a) ∈ allPageMap recs ↔
  ∃ page, recs !! a = Some page ∧ Page.name page = k ∧
          ∀ (j : nat) page',
            recs !! j = Some page' → Page.name page' = k → (j ≤ a)%nat.
Proof.
  revert k a. induction recs as [|p recs IH] using rev_ind; intros k a.
  { split; [intros H; by apply elem_of_nil in H|].
    intros (page & Hp & _). by rewrite lookup_nil in Hp. }
  rewrite allPageMap_snoc, mapSet_elem_iff
    by (rewrite allPageMap_keys; apply newSet_NoDup).
  split.
  - intros [[= -> ->]|[He Hne]].
    + exists p. split; [by rewrite lookup_app_r, Nat.sub_diag by lia|].
      split; [done|]. intros j page' Hj _.
      apply lookup_lt_Some in Hj. rewrite length_app in Hj. cbn in Hj. lia.
    + apply IH in He as (page & Hp & Hn & Hlast). cbn in Hne.
      exists page. split; [by rewrite lookup_app_l by (by eapply lookup_lt_Some)|].
      split; [done|]. intros j page' Hj Hn'.
      destruct (decide (j < length recs)%nat) as [Hlt|Hge].
      * rewrite lookup_app_l in Hj by done. eauto.
      * rewrite lookup_app_r in Hj by lia.
        apply list_lookup_singleton_Some in Hj as [_ <-]. congruence.
  - intros (page & Hp & Hn & Hlast).
    destruct (decide (a < length recs)%nat) as [Hlt|Hge].
    + right. rewrite lookup_app_l in Hp by done.
      assert (Page.name p ≠ k) as Hne.
      { intros Hpk.
        specialize (Hlast (length recs) p).
        rewrite lookup_app_r, Nat.sub_diag in Hlast by lia.
        specialize (Hlast eq_refl Hpk). lia. }
      split; [|cbn; congruence].
      apply IH. exists page. split; [done|]. split; [done|].
      intros j page' Hj Hn'. apply (Hlast j page'); [|done].
      by rewrite lookup_app_l by (by eapply lookup_lt_Some).
    + left. rewrite lookup_app_r in Hp by lia.
      apply list_lookup_singleton_Some in Hp as [Ha <-].
      f_equal; [done|lia].
Qed.

Lemma mapValues_last (recs : list Page.t) (a : nat) (page : Page.t) :
  recs !! a = Some page →
  a ∈ mapValues (allPageMap recs) ↔
  ∀ (j : nat) page', recs !! j = Some page' →
                     Page.name page' = Page.name page → (j ≤ a)%nat.
Proof.
  intros Hp. unfold mapValues. rewrite list_elem_of_fmap. split.
  - intros ([k a'] & Ha & He). cbn in Ha. subst a'.
    apply allPageMap_last in He as (page0 & Hp0 & Hn0 & Hlast).
    assert (page0 = page) as -> by congruence. by subst k.
  - intros Hlast. exists (Page.name page, a). split; [done|].
    apply allPageMap_last. by exists page.
Qed.

(** X7: when publishAll is not set the published set has no repetition,
    and a name is in it exactly when the last record listed under that name
    has a tag among the configured tags, or the name is a string and a
    configured prefix starts it or the record's share marker is "pub" or an
    array holding "pub". With no tags and no prefixes configured and no
    page shared the set is empty; with no tags configured every published
    name is a string. *)
Theorem selectPages_by_rules (publishConfig : PublishConfig)
    (recs : list Page.t) :
  flag (Config.publishAll publishConfig) = false →
  let published := (selectPages publishConfig recs).1 in
  NoDup published ∧
  (∀ x, x ∈ published ↔
     ∃ (a : nat) page,
       recs !! a = Some page ∧ Page.name page = x ∧
       (∀ (j : nat) page', recs !! j = Some page' →
                           Page.name page' = x → (j ≤ a)%nat) ∧
       (byTag publishConfig page ∨
        ∃ nm, x = JStr nm ∧ (byPrefix publishConfig nm ∨ byShare page))) ∧
  (Config.tags publishConfig = None →
   Config.prefixes publishConfig = None →
   (∀ page, page ∈ recs → ¬ byShare page) →
   published = []) ∧
  (Config.tags publishConfig = None →
   ∀ x, x ∈ published → ∃ nm, x = JStr nm).
Proof.
  intros Hall published. unfold published.
  rewrite selectPages_rules by done.
  destruct (selectLoop_run publishConfig _ (allPageMap_values_NoDup recs)
              [] recs) as (_ & Hset & Hnd & _).
  assert (∀ x, x ∈ (foldl (selectStep publishConfig) ([], recs)
                      (mapValues (allPageMap recs))).1 ↔
     ∃ (a : nat) page,
       recs !! a = Some page ∧ Page.name page = x ∧
       (∀ (j : nat) page', recs !! j = Some page' →
                           Page.name page' = x → (j ≤ a)%nat) ∧
       (byTag publishConfig page ∨
        ∃ nm, x = JStr nm ∧ (byPrefix publishConfig nm ∨ byShare page)))
    as Hiff.
  { intros x. rewrite Hset. split.
    - intros [Hx|(a & page & Ha & Hp & Hs & Hn)]; [by apply elem_of_nil in Hx|].
      exists a, page. split; [done|]. split; [done|]. split.
      + subst x. by apply mapValues_last.
      + apply selects_spec in Hs as [?|(nm & Hnm & ?)]; [by left|].
        right. exists nm. split; [congruence|done].
    - intros (a & page & Hp & Hn & Hlast & Hr). right. exists a, page.
      split; [apply (mapValues_last recs a page Hp); by subst x|].
      split; [done|]. split; [|done]. apply selects_spec.
      destruct Hr as [?|(nm & Hnm & ?)]; [by left|]. right. exists nm.
      split; [congruence|done]. }
  split; [apply Hnd, NoDup_nil_2|]. split; [exact Hiff|]. split.
  - intros Ht Hp Hsh.
    destruct (foldl _ _ _).1 as [|x l] eqn:Hl; [done|]. exfalso.
    destruct (proj1 (Hiff x) ltac:(by left)) as (a & page & Hpg & _ & _ & Hr).
    destruct Hr
      as [(ctags & _ & _ & Hc & _)|(nm & _ & [(ps & _ & Hps & _)|Hs])].
    + congruence.
    + congruence.
    + apply (Hsh page); [|done]. apply list_elem_of_lookup. eauto.
  - intros Ht x (a & page & _ & _ & _ & Hr)%Hiff.
    destruct Hr as [(ctags & _ & _ & Hc & _)|(nm & -> & _)]; [congruence|].
    by exists nm.
Qed.

Lemma selectPages_by_rules_witness :
  let publishConfig :=
    {| Config.title := None; Config.indexPage := None;
       Config.removeHashtags := Some true; Config.publishAll := None;
       Config.tags := Some ["blog"]; Config.prefixes := Some ["Public/"];
       Config.template := None; Config.generateIndexJson := Some true |} in
  let recs := [ {| Page.name := JStr "A"; Page.tags := Some [];
                   Page.share := ShareScalar JUndefined |};
                {| Page.name := JStr "B"; Page.tags := Some ["blog"];
                   Page.share := ShareScalar JUndefined |};
                {| Page.name := JStr "Public/C"; Page.tags := None;
                   Page.share := ShareScalar JUndefined |};
                {| Page.name := JStr "D"; Page.tags := None;
                   Page.share := ShareArray [JStr "x"; JStr "pub"] |} ] in
  (selectPages publishConfig recs).1 =
    [JStr "B"; JStr "Public/C"; JStr "D"] ∧
  NoDup (selectPages publishConfig recs).1 ∧
  (selectPages defaultPublishConfig
     [ {| Page.name := JStr "A"; Page.tags := Some ["blog"];
          Page.share := ShareScalar JUndefined |} ]).1 = [].
Proof.
  intros publishConfig recs. split; [reflexivity|]. split.
  - exact (proj1 (selectPages_by_rules publishConfig recs eq_refl)).
  - refine (proj1 (proj2 (proj2 (selectPages_by_rules defaultPublishConfig _
                                   eq_refl))) eq_refl eq_refl _).
    intros page ->%list_elem_of_singleton [H|(l & H & _)]; discriminate H.
Defined.

(** X8: the map made of the listing has the names of the listing as keys,
    each once, in the order of their first occurrence, and under a name the
    position of the last record listed with that name. *)
Theorem allPageMap_keeps_last_record (recs : list Page.t) :
  (allPageMap recs).*1 = newSet (Page.name <$> recs) ∧
  NoDup (allPageMap recs).*1 ∧
  (∀ x, x ∈ (allPageMap recs).*1 ↔ ∃ page, page ∈ recs ∧ Page.name page = x) ∧
  ∀ (k : JsVal) (a : nat),
    (k, a) ∈ allPageMap recs ↔
    ∃ page, recs !! a = Some page ∧ Page.name page = k ∧
            ∀ (j : nat) page', recs !! j = Some page' →
                               Page.name page' = k → (j ≤ a)%nat.
Proof.
  split; [apply allPageMap_keys|].
  split; [rewrite allPageMap_keys; apply newSet_NoDup|].
  split; [|apply allPageMap_last].
  intros x. rewrite allPageMap_keys, newSet_elem, list_elem_of_fmap. split.
  - intros (page & -> & Hp). by exists page.
  - intros (page & Hp & <-). by exists page.
Qed.

(** ** More on the rewrite *)

Section CleanMore.

Variable publishConfig : PublishConfig.
Variable validPages : list JsVal.

Lemma cleanFn_suppressed n :
  suppressed publishConfig n = true →
  cleanFn publishConfig validPages n = Some Null.
Proof.
  unfold suppressed, cleanFn. intros H.
  assert (hasType "WikiLink" n = false) as ->.
  { apply hasType_false. intros Hw.
    unfold hasType in H. rewrite Hw in H. discriminate H. }
  destruct (hasType "CommentBlock" n || hasType "Comment" n); [done|].
  cbn in H. by rewrite H.
Qed.

Lemma cleanFn_kept n :
  hasType "WikiLink" n = false → suppressed publishConfig n = false →
  cleanFn publishConfig validPages n = Some Undefined.
Proof.
  unfold suppressed, cleanFn. intros -> H.
  apply orb_false_elim in H as [-> ->]. reflexivity.
Qed.

(** A failing callback at a place the traversal gets to fails the pass. *)
Lemma replaceNodesMatching_plug_fails (fn : ParseTree → option Subst) c n :
  entered fn c [n] → fn n = None →
  replaceNodesMatching fn (plug c [n]) = None.
Proof.
  induction c as [ty f t tx pre post|ty f t tx pre inner IH post];
    intros Hent Hn; cbn [plug].
  - change ([n] ++ post)%list with (n :: post).
    rewrite replaceNodesMatching_node, replaceChildren_app.
    destruct (replaceChildren fn pre); [|done]. cbn [mbind option_bind].
    rewrite replaceChildren_cons. unfold visit. by rewrite Hn.
  - destruct Hent as [Hu Hent].
    rewrite replaceNodesMatching_node, replaceChildren_app.
    destruct (replaceChildren fn pre); [|done]. cbn [mbind option_bind].
    rewrite replaceChildren_cons. unfold visit at 1.
    by rewrite Hu, (IH Hent Hn).
Qed.

End CleanMore.

(** ** The text of a tree *)

Lemma renderToText_node ty f t cs :
  renderToText (Node ty f t None (Some cs)) = renderChildren cs.
Proof. reflexivity. Qed.

Lemma renderChildren_app l1 l2 :
  renderChildren (l1 ++ l2) =
  (a ← renderChildren l1; b ← renderChildren l2; Some (a ++ b)).
Proof.
  induction l1 as [|c l1 IH]; cbn [renderChildren app].
  - by destruct (renderChildren l2).
  - destruct (renderToText c) as [s|]; [|done]. rewrite IH.
    destruct (renderChildren l1) as [a|]; [|done]. cbn.
    destruct (renderChildren l2) as [b|]; [|done]. cbn.
    by rewrite string_app_assoc.
Qed.

(** The text of a node at a place is part of the text of the tree. *)
Lemma renderToText_plug c n out :
  textless c → renderToText (plug c [n]) = Some out →
  ∃ a s b, renderToText n = Some s ∧ out = a ++ s ++ b.
Proof.
  revert out. induction c as [ty f t tx pre post|ty f t tx pre inner IH post];
    intros out Htl; cbn [plug textless] in *.
  - subst tx. rewrite renderToText_node, renderChildren_app.
    destruct (renderChildren pre) as [a|]; [|done]. cbn [mbind option_bind].
    change ([n] ++ post)%list with (n :: post). cbn [renderChildren].
    destruct (renderToText n) as [s|]; [|done].
    destruct (renderChildren post) as [b|]; [|done]. cbn.
    intros [= <-]. by exists a, s, b.
  - destruct Htl as [-> Htl]. rewrite renderToText_node, renderChildren_app.
    destruct (renderChildren pre) as [a|]; [|done]. cbn [mbind option_bind].
    cbn [renderChildren].
    destruct (renderToText (plug inner [n])) as [m|] eqn:Hm; [|done].
    destruct (renderChildren post) as [b|]; [|done]. cbn.
    intros [= <-]. destruct (IH m Htl eq_refl) as (a' & s & b' & Hs & ->).
    exists (a ++ a'), s, (b' ++ b). split; [done|].
    by rewrite !string_app_assoc.
Qed.

(** ** Trimming *)

Lemma includes_app (s a b : string) : Js.includes s (a ++ s ++ b) = true.
Proof.
  induction a as [|c a IH].
  - change ("" ++ s ++ b) with (s ++ b).
    pose proof (string_prefix_app s b) as Hp.
    destruct (s ++ b); cbn [Js.includes]; by rewrite Hp.
  - change (String c a ++ s ++ b) with (String c (a ++ s ++ b)).
    cbn [Js.includes]. rewrite IH. apply orb_true_r.
Qed.

Lemma string_app_nil_r (s : string) : s ++ "" = s.
Proof.
  induction s as [|c s IH]; [reflexivity|].
  change (String c (s ++ "") = String c s). by rewrite IH.
Qed.

(** ** Reversal *)

Lemma rev_app_spec (s1 s2 : string) :
  String.rev_app s1 s2 = String.rev s1 ++ s2.
Proof.
  unfold String.rev. revert s2. induction s1 as [|c s1 IH]; intros s2.
  - reflexivity.
  - cbn [String.rev_app]. rewrite (IH (String c s2)), (IH (String c "")).
    by rewrite string_app_assoc.
Qed.

Lemma rev_cons c (s : string) : String.rev (String c s) = String.rev s ++ String c "".
Proof. unfold String.rev at 1. cbn [String.rev_app]. apply rev_app_spec. Qed.

Lemma rev_app_distr (s1 s2 : string) :
  String.rev (s1 ++ s2) = String.rev s2 ++ String.rev s1.
Proof.
  induction s1 as [|c s1 IH].
  - change ("" ++ s2) with s2. change (String.rev "") with "".
    by rewrite string_app_nil_r.
  - change (String c s1 ++ s2) with (String c (s1 ++ s2)).
    by rewrite !rev_cons, IH, string_app_assoc.
Qed.

Lemma rev_involutive (s : string) : String.rev (String.rev s) = s.
Proof.
  induction s as [|c s IH]; [reflexivity|].
  by rewrite rev_cons, rev_app_distr, IH.
Qed.

Section DropWhile.
Variables (p1 : ascii → bool) (p2 : ascii → ascii → bool)
  (p3 : ascii → ascii → ascii → bool) (c : ascii).
Hypothesis Hp1 : p1 c = false.
Hypothesis Hp2 : ∀ x, p2 c x = false ∧ p2 x c = false.
Hypothesis Hp3 : ∀ x y, p3 c x y = false ∧ p3 x c y = false ∧ p3 x y c = false.

(** A character that is part of no dropped group stops the dropping. *)
Lemma dropWhile_app (a rest : string) :
  ∃ a', Js.dropWhile p1 p2 p3 (a ++ String c rest) = a' ++ String c rest.
Proof.
  remember (String.length a) as n eqn:Hn.
  assert (Hle : (String.length a ≤ n)%nat) by lia. clear Hn.
  revert a Hle. induction n as [|n IH]; intros a Hle.
  - destruct a; [|cbn in Hle; lia].
    exists "". change ("" ++ String c rest) with (String c rest).
    cbn [Js.dropWhile]. rewrite Hp1.
    destruct rest as [|c2 [|c3 s3]]; [done| |].
    + by rewrite (proj1 (Hp2 c2)).
    + by rewrite (proj1 (Hp2 c2)), (proj1 (Hp3 c2 c3)).
  - destruct a as [|x a1].
    { apply (IH ""). cbn. lia. }
    change (String x a1 ++ String c rest) with (String x (a1 ++ String c rest)).
    cbn [Js.dropWhile]. destruct (p1 x).
    { apply IH. cbn in Hle. lia. }
    destruct a1 as [|y a2].
    { change ("" ++ String c rest) with (String c rest). cbv beta iota.
      rewrite (proj2 (Hp2 x)). exists (String x "").
      destruct rest as [|c3 s3]; [done|].
      by rewrite (proj1 (proj2 (Hp3 x c3))). }
    change (String y a2 ++ String c rest) with (String y (a2 ++ String c rest)).
    cbv beta iota. destruct (p2 x y).
    { apply IH. cbn in Hle. lia. }
    destruct a2 as [|z a3].
    { change ("" ++ String c rest) with (String c rest). cbv beta iota.
      rewrite (proj2 (proj2 (Hp3 x y))). by exists (String x (String y "")). }
    change (String z a3 ++ String c rest) with (String z (a3 ++ String c rest)).
    cbv beta iota. destruct (p3 x y z).
    { apply IH. cbn in Hle. lia. }
    by exists (String x (String y (String z a3))).
Qed.

End DropWhile.

(** ["_"] is no byte of a white space character. *)
Lemma isSpace2_underscore x :
  Js.isSpace2 "_" x = false ∧ Js.isSpace2 x "_" = false.
Proof. split; [reflexivity|]. unfold Js.isSpace2. apply andb_false_r. Qed.

Lemma isSpace3_underscore x y :
  Js.isSpace3 "_" x y = false ∧ Js.isSpace3 x "_" y = false ∧
  Js.isSpace3 x y "_" = false.
Proof.
  unfold Js.isSpace3.
  generalize (nat_of_ascii x) (nat_of_ascii y). intros n m.
  change (nat_of_ascii "_") with 95%nat.
  split; [|split].
  - reflexivity.
  - change (95 =? 154)%nat with false. change (95 =? 128)%nat with false.
    change (95 =? 129)%nat with false. change (95 =? 187)%nat with false.
    rewrite !andb_false_r. cbn [andb orb]. rewrite ?andb_false_r. reflexivity.
  - change (95 =? 128)%nat with false. change (95 =? 159)%nat with false.
    change (95 =? 191)%nat with false. change (95 =? 168)%nat with false.
    change (95 =? 169)%nat with false. change (95 =? 175)%nat with false.
    change (128 <=? 95)%nat with false.
    rewrite !andb_false_r. cbn [andb orb]. rewrite ?andb_false_r. reflexivity.
Qed.

Lemma trimStart_app (a rest : string) :
  ∃ a', Js.trimStart (a ++ String "_" rest) = a' ++ String "_" rest.
Proof.
  apply dropWhile_app; [reflexivity|apply isSpace2_underscore|
    apply isSpace3_underscore].
Qed.

Lemma trimEnd_app (a rest : string) :
  ∃ rest', Js.trimEnd (a ++ String "_" rest) = a ++ String "_" rest'.
Proof.
  unfold Js.trimEnd.
  rewrite rev_app_distr, rev_cons, string_app_assoc.
  change (String "_" "" ++ String.rev a) with (String "_" (String.rev a)).
  destruct (dropWhile_app Js.isSpace (λ c2 c1, Js.isSpace2 c1 c2)
    (λ c3 c2 c1, Js.isSpace3 c1 c2 c3) "_" eq_refl
    (λ x, conj (proj2 (isSpace2_underscore x)) (proj1 (isSpace2_underscore x)))
    (λ x y, conj (proj2 (proj2 (isSpace3_underscore y x)))
      (conj (proj1 (proj2 (isSpace3_underscore y x)))
         (proj1 (isSpace3_underscore y x))))
    (String.rev rest) (String.rev a)) as [b' ->].
  exists (String.rev b').
  by rewrite rev_app_distr, rev_cons, rev_involutive, string_app_assoc.
Qed.

(** Trimming keeps a part that starts and ends with ["_"]. *)
Lemma trim_keeps_emphasis (a name b : string) :
  Js.includes ("_" ++ name ++ "_") (Js.trim (a ++ ("_" ++ name ++ "_") ++ b))
  = true.
Proof.
  unfold Js.trim.
  change (("_" ++ name ++ "_") ++ b) with (String "_" ((name ++ "_") ++ b)).
  destruct (trimStart_app a ((name ++ "_") ++ b)) as [a' ->].
  replace (a' ++ String "_" ((name ++ "_") ++ b))
    with ((a' ++ "_" ++ name) ++ String "_" b)
    by (rewrite !string_app_assoc; reflexivity).
  destruct (trimEnd_app (a' ++ "_" ++ name) b) as [b' ->].
  replace ((a' ++ "_" ++ name) ++ String "_" b')
    with (a' ++ ("_" ++ name ++ "_") ++ b')
    by (rewrite !string_app_assoc; reflexivity).
  apply includes_app.
Qed.

Lemma replaceAround_textless (fn : ParseTree → option Subst) c c' :
  replaceAround fn c = Some c' → textless c → textless c'.
Proof.
  revert c'. induction c as [ty f t tx pre post|ty f t tx pre inner IH post];
    intros c'; cbn [replaceAround textless].
  - destruct (replaceChildren fn pre); [|done]. cbn.
    destruct (replaceChildren fn post); [|done]. cbn. by intros [= <-].
  - destruct (replaceChildren fn pre); [|done]. cbn.
    destruct (replaceAround fn inner) as [inner'|]; [|done]. cbn.
    destruct (replaceChildren fn post); [|done]. cbn.
    intros [= <-] [-> Htl]. split; [done|]. by apply IH.
Qed.

(** When the rewrite around a place fails, the pass fails. *)
Lemma replaceNodesMatching_around_fails (fn : ParseTree → option Subst) c n :
  entered fn c [n] → replaceAround fn c = None →
  replaceNodesMatching fn (plug c [n]) = None.
Proof.
  induction c as [ty f t tx pre post|ty f t tx pre inner IH post];
    cbn [plug replaceAround entered]; intros Hent Har.
  - change ([n] ++ post)%list with (n :: post).
    rewrite replaceNodesMatching_node, replaceChildren_app.
    destruct (replaceChildren fn pre); [|done].
    cbn [mbind option_bind] in Har |- *.
    rewrite replaceChildren_cons.
    destruct (visit fn n); [|done]. cbn [mbind option_bind].
    destruct (replaceChildren fn post); [|done]. discriminate Har.
  - destruct Hent as [Hu Hent].
    rewrite replaceNodesMatching_node, replaceChildren_app.
    destruct (replaceChildren fn pre); [|done].
    cbn [mbind option_bind] in Har |- *.
    rewrite replaceChildren_cons. unfold visit at 1. rewrite Hu.
    destruct (replaceAround fn inner) as [inner'|] eqn:Hin.
    + cbn [mbind option_bind] in Har.
      destruct (replaceNodesMatching fn (plug inner [n])); [|done].
      cbn [fmap option_fmap option_map mbind option_bind].
      destruct (replaceChildren fn post); [|done]. discriminate Har.
    + by rewrite (IH Hent eq_refl).
Qed.

Lemma splitHead_clean s : Js.includes "@" (Js.splitHead "@" s) = false.
Proof.
  induction s as [|c s IH]; [reflexivity|].
  cbn [Js.splitHead]. rewrite prefix_at_cons. case_bool_decide as Hc; [done|].
  rewrite includes_at_cons, IH. by rewrite bool_decide_false.
Qed.

Lemma splitHead_prefix s : ∃ rest, s = Js.splitHead "@" s ++ rest.
Proof.
  induction s as [|c s [rest IH]]; [by exists ""|].
  cbn [Js.splitHead]. rewrite prefix_at_cons. case_bool_decide as Hc.
  - by exists (String c s).
  - exists rest. change (String c (Js.splitHead "@" s) ++ rest)
      with (String c (Js.splitHead "@" s ++ rest)). by rewrite <- IH.
Qed.

(** X14: the page name that cleanMarkdown looks up holds no "@", starts
    the name written in the link, is not changed by a second cut, and is
    the written name exactly when that one holds no "@". *)
Theorem stripAt_has_no_at (page : string) :
  Js.includes "@" (stripAt page) = false ∧
  (∃ rest, page = stripAt page ++ rest) ∧
  stripAt (stripAt page) = stripAt page ∧
  (stripAt page = page ↔ Js.includes "@" page = false).
Proof.
  assert (Js.includes "@" (stripAt page) = false) as Hclean.
  { unfold stripAt. destruct (Js.includes "@" page) eqn:H; [|done].
    apply splitHead_clean. }
  split; [exact Hclean|]. split; [|split].
  - unfold stripAt. destruct (Js.includes "@" page).
    + apply splitHead_prefix.
    + exists "". clear. induction page as [|c p IH]; [done|].
      change (String c p ++ "") with (String c (p ++ "")). by rewrite <- IH.
  - unfold stripAt at 1. by rewrite Hclean.
  - split; [intros <-; exact Hclean|]. intros H. unfold stripAt. by rewrite H.
Qed.

Section TransformClaims.

Variable publishConfig : PublishConfig.
Variable validPages : list JsVal.

(** X10: a tree that has below its root no link and no comment, and no
    hashtag unless removeHashtags is off, comes back from the rewrite as it
    was, and cleanMarkdown answers with its text, trimmed (it throws when
    the text cannot be rendered). *)
Theorem cleanMarkdown_keeps_other_nodes (t : ParseTree) :
  Forall (λ d, type d ≠ Some "WikiLink" ∧ type d ≠ Some "CommentBlock" ∧
               type d ≠ Some "Comment" ∧
               (type d = Some "Hashtag" →
                flag (Config.removeHashtags publishConfig) = false))
         (descendants t) →
  replaceNodesMatching (cleanFn publishConfig validPages) t = Some t ∧
  cleanMarkdown t publishConfig validPages =
    (λ s, (t, Js.trim s)) <$> renderToText t.
Proof.
  intros Hd.
  assert (replaceNodesMatching (cleanFn publishConfig validPages) t = Some t)
    as Hid.
  { apply replaceNodesMatching_id. eapply Forall_impl; [exact Hd|].
    intros d (Hw & Hcb & Hc & Hh). apply cleanFn_kept.
    - by apply hasType_false.
    - unfold suppressed. apply hasType_false in Hcb, Hc. rewrite Hcb, Hc.
      cbn. destruct (hasType "Hashtag" d) eqn:Hht; [|done].
      apply hasType_true in Hht. by rewrite (Hh Hht). }
  split; [exact Hid|]. unfold cleanMarkdown. rewrite Hid. cbn.
  by destruct (renderToText t).
Qed.

(** X11: a Comment or CommentBlock node, or a Hashtag node when
    removeHashtags is set, at a place the traversal gets to is removed from
    its parent's array together with everything below it, whatever that
    is: the callback is not run inside it. *)
Theorem cleanMarkdown_deletes_whole_subtree (c c' : Place) (n : ParseTree) :
  type n = Some "Comment" ∨ type n = Some "CommentBlock" ∨
  (type n = Some "Hashtag" ∧
   flag (Config.removeHashtags publishConfig) = true) →
  entered (cleanFn publishConfig validPages) c [n] →
  replaceAround (cleanFn publishConfig validPages) c = Some c' →
  replaceNodesMatching (cleanFn publishConfig validPages) (plug c [n]) =
  Some (plug c' []).
Proof.
  intros Hty Hent Har. apply replaceNodesMatching_plug; [done..|].
  unfold visit. rewrite cleanFn_suppressed; [done|].
  unfold suppressed, hasType.
  destruct Hty as [->| [->|[-> ->]]]; reflexivity.
Qed.

(** X12: a WikiLink node at a place the traversal gets to whose page
    name cannot be read (a missing child or text) makes the rewrite, and so
    cleanMarkdown, throw. *)
Theorem cleanMarkdown_throws_on_broken_link (c : Place) (n : ParseTree) :
  type n = Some "WikiLink" →
  wikiLinkPage n = None →
  entered (cleanFn publishConfig validPages) c [n] →
  replaceNodesMatching (cleanFn publishConfig validPages) (plug c [n]) = None ∧
  cleanMarkdown (plug c [n]) publishConfig validPages = None.
Proof.
  intros Hty Hp Hent.
  assert (replaceNodesMatching (cleanFn publishConfig validPages) (plug c [n])
          = None) as Hnone.
  { apply replaceNodesMatching_plug_fails; [done|].
    unfold cleanFn. apply hasType_true in Hty. by rewrite Hty, Hp. }
  split; [exact Hnone|]. unfold cleanMarkdown. by rewrite Hnone.
Qed.

(** X13: when cleanMarkdown answers for a tree that has, at a place the
    traversal gets to under nodes that are not text nodes, a link to a page
    outside the published set, the text it answers with contains the
    page name (cut at "@") between underscores. *)
Theorem cleanMarkdown_text_shows_dead_link
    (c : Place) (n : ParseTree) (page : string)
    (mdTree' : ParseTree) (publishMd : string) :
  type n = Some "WikiLink" →
  wikiLinkPage n = Some page →
  JStr (stripAt page) ∉ validPages →
  entered (cleanFn publishConfig validPages) c [n] →
  textless c →
  cleanMarkdown (plug c [n]) publishConfig validPages =
    Some (mdTree', publishMd) →
  Js.includes ("_" ++ stripAt page ++ "_") publishMd = true.
Proof.
  intros Hty Hp Hdead Hent Htl. unfold cleanMarkdown.
  destruct (replaceAround (cleanFn publishConfig validPages) c) as [c'|] eqn:Har.
  - rewrite (replaceNodesMatching_plug _ c c' n
               [textNode ("_" ++ stripAt page ++ "_")] Hent Har).
    2:{ unfold visit.
        by rewrite (cleanFn_wikilink_dead publishConfig validPages n page). }
    cbn [mbind option_bind].
    destruct (renderToText (plug c' _)) as [out|] eqn:Hout; [|done].
    cbn. intros [= _ <-].
    destruct (renderToText_plug c' _ out
                (replaceAround_textless _ c c' Har Htl) Hout)
      as (a & s & b & [= <-] & ->).
    apply trim_keeps_emphasis.
  - by rewrite (replaceNodesMatching_around_fails _ c n Hent Har).
Qed.

End TransformClaims.

Section FailureClaims.

Variable parseMarkdown : string → ParseTree.
Variable renderMarkdownToHtml : ParseTree → string.
Variable mimeType : string → string.
Variable clock : Z.
Variable parseYaml : string → option PublishConfig.
Variable codeBlock : string → option string.
Variable templateAsset : option string.
Variable compile : string → TemplateData → option string.


(** X6: loading the configuration never throws and never changes the
    store. Without a PUBLISH page, or with one that cannot be parsed, the
    result is the defaults; otherwise every field the page sets wins, and
    removeHashtags and generateIndexJson are true unless it sets them. *)
Theorem loadPublishConfig_falls_back (s : Space) :
  let r := loadPublishConfig parseYaml s in
  r.2 = s ∧
  ∃ publishConfig,
    r.1 = Some publishConfig ∧
    (pageText s !! "PUBLISH" = None → publishConfig = defaultPublishConfig) ∧
    (∀ txt, pageText s !! "PUBLISH" = Some txt → parseYaml txt = None →
            publishConfig = defaultPublishConfig) ∧
    (∀ txt loaded, pageText s !! "PUBLISH" = Some txt →
       parseYaml txt = Some loaded →
       Config.removeHashtags publishConfig =
         Some (default true (Config.removeHashtags loaded)) ∧
       Config.generateIndexJson publishConfig =
         Some (default true (Config.generateIndexJson loaded)) ∧
       Config.publishAll publishConfig = Config.publishAll loaded ∧
       Config.tags publishConfig = Config.tags loaded ∧
       Config.prefixes publishConfig = Config.prefixes loaded ∧
       Config.indexPage publishConfig = Config.indexPage loaded ∧
       Config.template publishConfig = Config.template loaded ∧
       Config.title publishConfig = Config.title loaded).
Proof.
  cbn zeta. rewrite loadPublishConfig_run. split; [done|].
  eexists. split; [reflexivity|]. split; [|split].
  - by intros ->.
  - intros txt -> Hy. cbn. by rewrite Hy.
  - intros txt loaded -> Hy. cbn. rewrite Hy. cbn.
    destruct loaded as [ti ip rh pa tg pf tp gi]. cbn.
    by destruct ti, ip, rh, pa, tg, pf, tp, gi.
Qed.

(** X5: when the template asset cannot be read, or the configured
    template page is missing or has no code block, the run throws after the
    clean-up: the attachments whose name starts with "_public" are gone,
    nothing is generated and the rest of the store is as it was. *)
Theorem publishWith_without_template (publishConfig : PublishConfig)
    (s : Space) :
  let r := publishWith parseMarkdown renderMarkdownToHtml mimeType clock
             codeBlock templateAsset compile publishConfig s in
  templateAsset = None ∨
  (∃ t, nonEmpty (Config.template publishConfig) = Some t ∧
        pageText s !! t ≫= codeBlock = None) →
  r.1 = None ∧
  catalog r.2 = catalog s ∧ pageText r.2 = pageText s ∧
  ∀ p, attachments r.2 !! p =
       if String.prefix "_public" p then None else attachments s !! p.
Proof.
  cbn zeta. intros Hfail.
  destruct (cleanDestDir_run "_public" s) as (Hok & Hc & Hp & Ha).
  enough (publishWith parseMarkdown renderMarkdownToHtml mimeType clock
            codeBlock templateAsset compile publishConfig s =
          (None, (cleanDestDir "_public" s).2)) as -> by done.
  unfold publishWith. rewrite bind_run. cbn [listPages fst snd].
  rewrite bind_run, Hok. rewrite bind_run.
  destruct templateAsset as [asset|]; [|reflexivity].
  cbn [liftOption ret fst snd].
  destruct Hfail as [?|(t & Ht & Hcb)]; [done|].
  rewrite bind_run, Ht. unfold readCodeBlockPage. rewrite bind_run.
  cbn [readPage fst snd]. rewrite Hp.
  destruct (pageText s !! t) as [txt|]; [|reflexivity].
  cbn in Hcb. rewrite Hcb. reflexivity.
Qed.

End FailureClaims.

Lemma Space_eq (s s' : Space) :
  catalog s = catalog s' → pageText s = pageText s' →
  (∀ p, attachments s !! p = attachments s' !! p) → s = s'.
Proof.
  destruct s as [c t a], s' as [c' t' a']. cbn. intros -> -> H.
  f_equal. by apply map_eq.
Qed.

Section Idempotence.

Variable parseMarkdown : string → ParseTree.
Variable renderMarkdownToHtml : ParseTree → string.
Variable mimeType : string → string.
Variable clock : Z.
Variable parseYaml : string → option PublishConfig.
Variable codeBlock : string → option string.
Variable templateAsset : option string.
Variable compile : string → TemplateData → option string.

(** A run depends on the store through the cleaned store only. *)
Lemma publishWith_from_cleaned publishConfig s s' :
  (cleanDestDir "_public" s).2 = (cleanDestDir "_public" s').2 →
  publishWith parseMarkdown renderMarkdownToHtml mimeType clock codeBlock
    templateAsset compile publishConfig s =
  publishWith parseMarkdown renderMarkdownToHtml mimeType clock codeBlock
    templateAsset compile publishConfig s'.
Proof.
  intros Heq.
  destruct (cleanDestDir_run "_public" s) as (Hok & Hc & _).
  destruct (cleanDestDir_run "_public" s') as (Hok' & Hc' & _).
  assert (catalog s = catalog s') as Hcat by congruence.
  unfold publishWith. rewrite !(bind_run listPages).
  cbn [listPages fst snd]. rewrite !(bind_run (cleanDestDir "_public")).
  by rewrite Hok, Hok', Heq, Hcat.
Qed.

(** X2: a run does not depend on what an earlier run has left: running
    publishAll on the store left by a run (made at any time stamp) gives
    the outcome and the store that running it on the original store gives;
    in particular a second run at the same time stamp repeats the first. *)
Theorem publishAll_idempotent (clock0 : Z) (s : Space) :
  let run0 := publishAll parseMarkdown renderMarkdownToHtml mimeType clock0
                parseYaml codeBlock templateAsset compile in
  let run := publishAll parseMarkdown renderMarkdownToHtml mimeType clock
               parseYaml codeBlock templateAsset compile in
  run (run0 s).2 = run s.
Proof.
  cbn zeta.
  destruct (publishAll_effect parseMarkdown
              renderMarkdownToHtml mimeType clock0 parseYaml codeBlock
              templateAsset compile s) as (Hc & Hp & Hout & _).
  set (s' := (publishAll _ _ _ clock0 _ _ _ _ s).2) in *.
  rewrite (publishAll_run _ _ _ _ _ _ _ _ s').
  rewrite (publishAll_run _ _ _ _ _ _ _ _ s).
  rewrite Hp. apply publishWith_from_cleaned.
  destruct (cleanDestDir_run "_public" s) as (_ & Hc1 & Hp1 & Ha1).
  destruct (cleanDestDir_run "_public" s') as (_ & Hc2 & Hp2 & Ha2).
  apply Space_eq; [congruence|congruence|].
  intros p. rewrite Ha1, Ha2.
  destruct (String.prefix "_public" p) eqn:Hpre; [done|]. by apply Hout.
Qed.

End Idempotence.

Lemma listingOf_elem (s : Space) (f : FileMeta) :
  f ∈ listingOf s ↔ ∃ p x, attachments s !! p = Some x ∧ f = metaOf (p, x).
Proof.
  unfold listingOf. rewrite list_elem_of_fmap. split.
  - intros ([p x] & -> & He%elem_of_map_to_list). by exists p, x.
  - intros (p & x & Hx & ->). exists (p, x). split; [done|].
    by apply elem_of_map_to_list.
Qed.

Section ManifestRun.

Variable parseMarkdown : string → ParseTree.
Variable renderMarkdownToHtml : ParseTree → string.
Variable mimeType : string → string.
Variable clock : Z.
Variable codeBlock : string → option string.
Variable templateAsset : option string.
Variable compile : string → TemplateData → option string.

Let underRoot (p : string) : Prop := String.prefix "_public" p = true.

(** The store that the manifest stage of a completed run finds: the
    cleaned store with writes at names that the output root, "/" and
    something more make up. *)
Lemma publishWith_manifest_stage (P : string → Prop) publishConfig s :
  (∀ x, P ("_public" ++ "/" ++ x)) →
  (publishWith parseMarkdown renderMarkdownToHtml mimeType clock codeBlock
     templateAsset compile publishConfig s).1 = Some tt →
  ∃ s4,
    writesOnly mimeType clock P (cleanDestDir "_public" s).2 s4 ∧
    publishWith parseMarkdown renderMarkdownToHtml mimeType clock codeBlock
      templateAsset compile publishConfig s =
    (if flag (Config.generateIndexJson publishConfig)
     then writeIndexJson mimeType clock "_public" else ret tt) s4.
Proof.
  unfold publishWith. intros Hroot H.
  destruct (bind_success _ _ _ _ H) as (allPages & _ & Heq).
  rewrite Heq in H |- *. clear Heq. cbn [listPages fst snd] in H |- *.
  destruct (bind_success _ _ _ _ H) as ([] & _ & Heq).
  rewrite Heq in H |- *. clear Heq.
  set (s1 := (cleanDestDir "_public" s).2) in *.
  destruct (bind_success _ _ _ _ H) as (pageTemplate & _ & Heq).
  rewrite Heq in H |- *. clear Heq.
  assert ((liftOption templateAsset s1).2 = s1) as Hlift
    by (by destruct templateAsset).
  rewrite Hlift in H |- *. clear Hlift.
  destruct (bind_success _ _ _ _ H) as (pageTemplate' & _ & Heq).
  rewrite Heq in H |- *. clear Heq.
  set (m2 := match nonEmpty (Config.template publishConfig) with
             | Some t => _ | None => _ end) in *.
  assert (keeps (writesOnly mimeType clock P) m2) as H2.
  { unfold m2. destruct (nonEmpty (Config.template publishConfig));
      [apply keeps_readCodeBlockPage|apply keeps_ret]. }
  destruct (bind_success _ _ _ _ H) as ([] & _ & Heq).
  rewrite Heq in H |- *. clear Heq.
  match type of H with
  | context [forEach ?l ?g (m2 s1).2] =>
      assert (keeps (writesOnly mimeType clock P) (forEach l g)) as H3
  end.
  { apply keeps_forEach. intros page. apply keeps_generatePage; apply Hroot. }
  destruct (bind_success _ _ _ _ H) as ([] & _ & Heq).
  rewrite Heq in H |- *. clear Heq.
  set (m4 := match nonEmpty (Config.indexPage publishConfig) with
             | Some ip => _ | None => _ end) in *.
  assert (keeps (writesOnly mimeType clock P) m4) as H4.
  { unfold m4. destruct (nonEmpty (Config.indexPage publishConfig));
      [|apply keeps_ret].
    apply keeps_generatePage; [apply (Hroot "index.html")
                              |apply (Hroot "index.md")|apply Hroot]. }
  eexists. split; [|reflexivity].
  eapply writesOnly_trans; [apply H2|].
  eapply writesOnly_trans; [apply H3|apply H4].
Qed.

(** The same with the names that start with the output root. *)
Lemma publishWith_before_manifest publishConfig s :
  (publishWith parseMarkdown renderMarkdownToHtml mimeType clock codeBlock
     templateAsset compile publishConfig s).1 = Some tt →
  ∃ s4,
    writesOnly mimeType clock underRoot (cleanDestDir "_public" s).2 s4 ∧
    publishWith parseMarkdown renderMarkdownToHtml mimeType clock codeBlock
      templateAsset compile publishConfig s =
    (if flag (Config.generateIndexJson publishConfig)
     then writeIndexJson mimeType clock "_public" else ret tt) s4.
Proof.
  apply publishWith_manifest_stage. intros x. apply string_prefix_app.
Qed.

(** C8: a completed run with generateIndexJson set ends with the manifest
    stage. Of the store it finds there, the stage lists the attachments
    whose name starts with "_public" and whose content type is not
    "text/html"; each of them was written by this run at "_public", "/" and
    a path, and its entry has that path as name, the attachment's size,
    content type and time stamp, and the permission "ro". The stage writes
    the JSON text of the entries, indented by two spaces, at
    "_public/index.json" and nothing else. *)
Theorem manifest_entries_and_layout (publishConfig : PublishConfig)
    (s : Space) :
  let r := publishWith parseMarkdown renderMarkdownToHtml mimeType clock
             codeBlock templateAsset compile publishConfig s in
  r.1 = Some tt →
  flag (Config.generateIndexJson publishConfig) = true →
  ∃ s4,
    let listing := listingOf s4 in
    let entries := publishedFiles "_public" listing in
    r = writeIndexJson mimeType clock "_public" s4 ∧
    (∀ p, p ≠ "_public/index.json" →
          attachments r.2 !! p = attachments s4 !! p) ∧
    data <$> attachments r.2 !! "_public/index.json" =
      Some (JSON.stringify (JsonArr (fileMetaJson <$> entries)) 2) ∧
    JSON.stringify (JsonArr (fileMetaJson <$> entries)) 2 =
      match entries with
      | [] => "[]"
      | _ => "[" ++ JSON.newline ++ "  " ++
             String.concat ("," ++ JSON.newline ++ "  ") (entryText <$> entries)
             ++ JSON.newline ++ "]"
      end ∧
    (∀ e, e ∈ entries →
       File.contentType e ≠ "text/html" ∧
       File.perm e = "ro" ∧
       ∃ f, f ∈ listing ∧
            File.name f = "_public" ++ "/" ++ File.name e ∧
            File.size e = File.size f ∧
            File.contentType e = File.contentType f ∧
            File.lastModified e = File.lastModified f) ∧
    (∀ f, f ∈ listing → String.prefix "_public" (File.name f) = true →
          File.contentType f ≠ "text/html" →
          publishedFile "_public" f ∈ entries).
Proof.
  cbn zeta. intros Hrun Hflag.
  destruct (publishWith_manifest_stage
              (λ p, ∃ rest, p = "_public" ++ "/" ++ rest) publishConfig s
              ltac:(by eexists) Hrun) as (s4 & (_ & _ & Hw) & Heq).
  destruct (cleanDestDir_run "_public" s) as (_ & _ & _ & Hclean).
  rewrite Hflag in Heq. exists s4. split; [exact Heq|]. rewrite Heq.
  rewrite writeIndexJson_run, writeAttachment_run. cbn [snd attachments].
  split; [|split; [|split; [|split]]].
  - intros p Hp. by rewrite lookup_insert_ne.
  - by rewrite lookup_insert_eq.
  - apply stringify_manifest.
  - intros e (f & Hf & Hp & Hc & ->)%publishedFiles_elem.
    split; [exact Hc|]. split; [reflexivity|]. exists f.
    split; [exact Hf|]. split; [|done].
    apply listingOf_elem in Hf as (p & x & Hx & ->).
    unfold Js.startsWith in Hp. cbn [File.name metaOf fst] in Hp.
    cbn [File.name publishedFile metaOf fst].
    destruct (Hw p) as [Hsame|([rest ->] & _)].
    + rewrite Hsame, Hclean, Hp in Hx. discriminate.
    + by rewrite slice_app.
  - intros f Hf Hp Hc. by apply publishedFiles_intro.
Qed.

(** X4: in a completed run with generateIndexJson set, index.json holds
    the entries of a list in which every entry has the time stamp of this
    run and describes a file that the run wrote under a name starting with
    "_public", of a content type other than "text/html", still stored
    unless it is index.json itself; and every such file in the final store
    other than index.json has its entry in the list. *)
Theorem manifest_lists_this_run (publishConfig : PublishConfig) (s : Space) :
  let r := publishWith parseMarkdown renderMarkdownToHtml mimeType clock
             codeBlock templateAsset compile publishConfig s in
  r.1 = Some tt →
  flag (Config.generateIndexJson publishConfig) = true →
  ∃ entries,
    data <$> attachments r.2 !! "_public/index.json" =
      Some (JSON.stringify (JsonArr (fileMetaJson <$> entries)) 2) ∧
    (∀ e, e ∈ entries →
       File.lastModified e = clock ∧
       ∃ p bytes,
         String.prefix "_public" p = true ∧
         mimeType p ≠ "text/html" ∧
         e = publishedFile "_public" (metaOf (p, stored mimeType clock bytes p)) ∧
         (p ≠ "_public/index.json" →
          attachments r.2 !! p = Some (stored mimeType clock bytes p))) ∧
    (∀ p x, String.prefix "_public" p = true → p ≠ "_public/index.json" →
            attachments r.2 !! p = Some x → storedType x ≠ "text/html" →
            publishedFile "_public" (metaOf (p, x)) ∈ entries).
Proof.
  cbn zeta. intros Hrun Hflag.
  destruct (publishWith_before_manifest publishConfig s Hrun)
    as (s4 & (_ & _ & Hw) & ->).
  destruct (cleanDestDir_run "_public" s) as (_ & _ & _ & Hclean).
  rewrite Hflag, writeIndexJson_run, writeAttachment_run.
  cbn [snd attachments].
  exists (publishedFiles "_public" (listingOf s4)).
  assert (∀ p x, String.prefix "_public" p = true →
                 attachments s4 !! p = Some x →
                 ∃ bytes, x = stored mimeType clock bytes p) as Hfresh.
  { intros p x Hp Hx. destruct (Hw p) as [Heq|(_ & b & Hb)].
    - rewrite Heq, Hclean, Hp in Hx. discriminate.
    - exists b. congruence. }
  split; [|split].
  - by rewrite lookup_insert_eq.
  - intros e (f & Hf & Hp & Hc & ->)%publishedFiles_elem.
    apply listingOf_elem in Hf as (p & x & Hx & ->).
    unfold Js.startsWith in Hp. cbn in Hp, Hc.
    destruct (Hfresh p x Hp Hx) as [bytes ->].
    split; [reflexivity|]. exists p, bytes.
    split; [done|]. split; [done|]. split; [done|].
    intros Hne. by rewrite lookup_insert_ne.
  - intros p x Hp Hne Hx Hc. rewrite lookup_insert_ne in Hx by done.
    apply publishedFiles_intro; [|done|done].
    apply listingOf_elem. by exists p, x.
Qed.

End ManifestRun.

Lemma publishAll_touches_only_output_root_witness :
  let r := publishAll Sample.parse Sample.render Sample.mime 0 Sample2.yaml
             Sample.noCodeBlock (Some "") Sample.compile Sample2.configured in
  r.1 = Some tt ∧
  attachments r.2 !! "notes.txt" =
    attachments Sample2.configured !! "notes.txt" ∧
  attachments r.2 !! "_public/Old.md" = None ∧
  attachments r.2 !! "_publicity/img.png" = None ∧
  attachments r.2 !! "_public/P.md" =
    Some (stored Sample.mime 0
            "See _C_ and _Home_image.pnghttps://example.com/x.png"
            "_public/P.md").
Proof.
  intros r.
  destruct (publishAll_touches_only_output_root Sample.parse Sample.render
              Sample.mime 0 Sample2.yaml Sample.noCodeBlock (Some "")
              Sample.compile Sample2.configured) as (_ & _ & Hout & Hfresh).
  split; [vm_compute; reflexivity|].
  split; [exact (Hout "notes.txt" eq_refl)|].
  split; [vm_compute; reflexivity|].
  split; [vm_compute; reflexivity|].
  vm_compute. reflexivity.
Defined.


Lemma cleanMarkdown_keeps_other_nodes_witness :
  replaceNodesMatching (cleanFn Sample2.keepHashtags []) Sample2.tagged =
    Some Sample2.tagged ∧
  cleanMarkdown Sample2.tagged Sample2.keepHashtags [] =
    Some (Sample2.tagged, "Done #draftimage.png").
Proof.
  destruct (cleanMarkdown_keeps_other_nodes Sample2.keepHashtags []
              Sample2.tagged) as [Hid Htxt].
  { apply (bool_decide_unpack _). vm_compute. exact I. }
  split; [exact Hid|]. rewrite Htxt. reflexivity.
Defined.

Lemma cleanMarkdown_deletes_whole_subtree_witness :
  replaceNodesMatching (cleanFn defaultPublishConfig [])
    (plug Sample2.place [Sample2.brokenComment]) =
  Some (plug Sample2.place' []).
Proof.
  refine (cleanMarkdown_deletes_whole_subtree defaultPublishConfig []
            Sample2.place Sample2.place' Sample2.brokenComment
            (or_introl eq_refl) _ eq_refl).
  split; [reflexivity|exact I].
Defined.

Lemma cleanMarkdown_throws_on_broken_link_witness :
  cleanMarkdown (plug Sample2.place [Sample2.brokenLink])
    defaultPublishConfig [] = None.
Proof.
  refine (proj2 (cleanMarkdown_throws_on_broken_link defaultPublishConfig []
                   Sample2.place Sample2.brokenLink eq_refl eq_refl _)).
  split; [reflexivity|exact I].
Defined.

Lemma cleanMarkdown_text_shows_dead_link_witness :
  cleanMarkdown (plug Sample.place1 [Sample.link "C"]) defaultPublishConfig
    [JStr "Home"] =
    Some (Sample.docCleaned,
          "See _C_ and [[Home@12]]image.pnghttps://example.com/x.png") ∧
  Js.includes "_C_"
    "See _C_ and [[Home@12]]image.pnghttps://example.com/x.png" = true.
Proof.
  split; [reflexivity|].
  refine (cleanMarkdown_text_shows_dead_link defaultPublishConfig
            [JStr "Home"] Sample.place1 (Sample.link "C") "C"
            Sample.docCleaned _ eq_refl eq_refl _ _ _ eq_refl).
  - intros H. apply list_elem_of_singleton in H. discriminate H.
  - split; [reflexivity|exact I].
  - split; reflexivity.
Defined.


Lemma loadPublishConfig_falls_back_witness :
  loadPublishConfig Sample2.yaml Sample.site =
    (Some defaultPublishConfig, Sample.site) ∧
  ∃ publishConfig,
    (loadPublishConfig Sample2.yaml Sample2.configured).1 = Some publishConfig ∧
    Config.publishAll publishConfig = Some true ∧
    Config.removeHashtags publishConfig = Some true.
Proof.
  split.
  - destruct (loadPublishConfig_falls_back Sample2.yaml Sample.site)
      as (Hs & cfg & Hcfg & Hnone & _).
    rewrite (Hnone eq_refl) in Hcfg.
    destruct (loadPublishConfig Sample2.yaml Sample.site) as [o s].
    cbn in Hs, Hcfg. by rewrite Hs, Hcfg.
  - destruct (loadPublishConfig_falls_back Sample2.yaml Sample2.configured)
      as (_ & cfg & Hcfg & _ & _ & Hloaded).
    exists cfg. split; [exact Hcfg|].
    destruct (Hloaded "publishAll: true" _ eq_refl eq_refl)
      as (Hrh & _ & Hpa & _).
    split; [exact Hpa|exact Hrh].
Defined.

Lemma publishWith_without_template_witness :
  let r := publishWith Sample.parse Sample.render Sample.mime 0
             Sample.noCodeBlock None Sample.compile defaultPublishConfig
             Sample2.configured in
  r.1 = None ∧
  attachments r.2 !! "_public/Old.md" = None ∧
  attachments r.2 !! "notes.txt" =
    attachments Sample2.configured !! "notes.txt".
Proof.
  intros r.
  destruct (publishWith_without_template Sample.parse Sample.render
              Sample.mime 0 Sample.noCodeBlock None Sample.compile
              defaultPublishConfig Sample2.configured (or_introl eq_refl))
    as (Hfail & _ & _ & Ha).
  split; [exact Hfail|]. split; [exact (Ha "_public/Old.md")|].
  exact (Ha "notes.txt").
Defined.

Lemma manifest_entries_and_layout_witness :
  let r := publishWith Sample.parse Sample.render Sample.mime 0
             Sample.noCodeBlock (Some "") Sample.compile defaultPublishConfig
             Sample.site in
  r.1 = Some tt ∧
  ∃ entries,
    data <$> attachments r.2 !! "_public/index.json" =
      Some (JSON.stringify (JsonArr (fileMetaJson <$> entries)) 2) ∧
    {| File.name := "P.md"; File.size := 52;
       File.contentType := "text/markdown"; File.lastModified := 0;
       File.perm := "ro" |} ∈ entries ∧
    ∀ e, e ∈ entries →
      File.contentType e ≠ "text/html" ∧ File.perm e = "ro" ∧
      is_Some (attachments r.2 !! ("_public" ++ "/" ++ File.name e)).
Proof.
  intros r.
  assert (r.1 = Some tt) as Hrun by (vm_compute; reflexivity).
  split; [exact Hrun|].
  destruct (manifest_entries_and_layout Sample.parse Sample.render
              Sample.mime 0 Sample.noCodeBlock (Some "") Sample.compile
              defaultPublishConfig Sample.site Hrun eq_refl)
    as (s4 & Hr & Hsame & Hdata & _ & Hentries & Hlisted).
  exists (publishedFiles "_public" (listingOf s4)).
  split; [exact Hdata|]. split.
  - assert (attachments s4 !! "_public/P.md" =
            attachments r.2 !! "_public/P.md") as Hmd.
    { symmetry. apply Hsame. discriminate. }
    assert (attachments r.2 !! "_public/P.md" = Some 
             {| data := "See _C_ and _Home_image.pnghttps://example.com/x.png";
                storedType := "text/markdown"; storedTime := 0 |}) as Hv.
    { vm_compute. reflexivity. }
    rewrite Hv in Hmd.
    pose proof (Hlisted (metaOf ("_public/P.md",
             {| data := "See _C_ and _Home_image.pnghttps://example.com/x.png";
                storedType := "text/markdown"; storedTime := 0 |}))) as Hl.
    apply Hl; [|reflexivity|discriminate].
    apply listingOf_elem. eexists _, _. split; [exact Hmd|reflexivity].
  - intros e He. destruct (Hentries e He) as (Hc & Hp & f & Hf & Hn & _).
    split; [exact Hc|]. split; [exact Hp|].
    apply listingOf_elem in Hf as (p & x & Hx & ->).
    cbn [File.name metaOf fst] in Hn. subst p.
    destruct (decide ("_public" ++ "/" ++ File.name e = "_public/index.json"))
      as [Heq|Hne].
    + rewrite Heq. apply (proj1 (fmap_is_Some data _)).
      eexists. exact Hdata.
    + exists x. exact (eq_trans (Hsame _ Hne) Hx).
Defined.

Lemma manifest_lists_this_run_witness :
  let r := publishWith Sample.parse Sample.render Sample.mime 0
             Sample.noCodeBlock (Some "") Sample.compile defaultPublishConfig
             Sample.site in
  ∃ entries,
    data <$> attachments r.2 !! "_public/index.json" =
      Some (JSON.stringify (JsonArr (fileMetaJson <$> entries)) 2) ∧
    {| File.name := "P.md"; File.size := 52;
       File.contentType := "text/markdown"; File.lastModified := 0;
       File.perm := "ro" |} ∈ entries.
Proof.
  intros r.
  destruct (manifest_lists_this_run Sample.parse Sample.render Sample.mime 0
              Sample.noCodeBlock (Some "") Sample.compile defaultPublishConfig
              Sample.site) as (entries & Hdata & _ & Hlisted).
  { vm_compute. reflexivity. }
  { reflexivity. }
  exists entries. split; [exact Hdata|].
  refine (Hlisted "_public/P.md"
            (stored Sample.mime 0
               "See _C_ and _Home_image.pnghttps://example.com/x.png"
               "_public/P.md") eq_refl _ _ _).
  - discriminate.
  - vm_compute. reflexivity.
  - vm_compute. discriminate.
Defined.
